(** * AsyncAutocomplete: the data-acquisition core of [src/AsyncAutocomplete.tsx]

    A shallow embedding of the helpers and handlers of the component
    ([getValueFromPath], [buildUrl], [baseQueryKey], [options],
    [handleChange], [findOptionByValue], [isOptionEqualToValue],
    [handleScroll], [handleFocus]) together with the small part of the
    JavaScript runtime and of lodash they call, and the properties of the
    specification that are stated about them. *)

From Stdlib Require Import ZArith String Ascii List Bool Lia.
From stdpp Require Import base option list strings pretty gmap.

Local Open Scope string_scope.
Local Open Scope Z_scope.

(** ** Outcomes: a JavaScript computation returns a value or throws *)

Inductive JsError : Type :=
| TypeError (message : string).

Inductive outcome (A : Type) : Type :=
| Ok (a : A)
| Throw (e : JsError).
Arguments Ok {A} a.
Arguments Throw {A} e.

Definition obind {A B : Type} (m : outcome A) (k : A → outcome B) : outcome B :=
  match m with
  | Ok a => k a
  | Throw e => Throw e
  end.

Notation "'let*' x ':=' m 'in' k" := (obind m (λ x, k))
  (at level 10, x name, m at level 100, k at level 200).

Definition returns {A : Type} (m : outcome A) : Prop := ∃ a, m = Ok a.

(** ** JavaScript values

    The data the component handles is what [response.json()] produces and
    what the caller passes as [value]: JSON data plus [undefined]. Numbers
    are the integer-valued ones (ids, counts, pixel offsets): [VNum n]
    stands for the number [n] when [n] is a safe integer, of magnitude below
    2^53, and JavaScript prints these in decimal; a string is its UTF-8 byte
    sequence; an object is the list of its own entries in enumeration order
    ([Object.entries]), each key once. *)

Module Js.

#[warnings="-register-all"] Inductive JsValue : Type :=
| VUndefined
| VNull
| VBool (b : bool)
| VNum (n : Z)
| VStr (s : string)
| VArr (elems : list JsValue)
| VObj (fields : list (string * JsValue)).

Inductive jstype : Type :=
| TUndefined | TObject | TBoolean | TNumber | TString.

(** [typeof v] *)
Definition typeof (v : JsValue) : jstype :=
  match v with
  | VUndefined => TUndefined
  | VNull => TObject
  | VBool _ => TBoolean
  | VNum _ => TNumber
  | VStr _ => TString
  | VArr _ => TObject
  | VObj _ => TObject
  end.

(** Truthiness, as used by [if (v)], [!v], [a && b] and [c ? x : y]. *)
Definition toBoolean (v : JsValue) : bool :=
  match v with
  | VUndefined | VNull => false
  | VBool b => b
  | VNum n => negb (n =? 0)
  | VStr s => negb (String.eqb s "")
  | VArr _ | VObj _ => true
  end.

(** [v == null]: [v] is [null] or [undefined]. *)
Definition isNullish (v : JsValue) : bool :=
  match v with
  | VUndefined | VNull => true
  | _ => false
  end.

(** [a ?? b] *)
Definition nullishCoalesce (a b : JsValue) : JsValue :=
  if isNullish a then b else a.

(** [xs.join(sep)] on strings that are already converted. *)
Fixpoint strJoin (sep : string) (xs : list string) : string :=
  match xs with
  | [] => ""
  | [x] => x
  | x :: rest => x +:+ sep +:+ strJoin sep rest
  end.

(** [String(v)] and, on strings and numbers, [v.toString()]. A number
    prints in decimal, as the runtime prints a safe integer. An array
    prints its elements separated by commas, with [null] and [undefined]
    elements printed as the empty string. *)
Fixpoint ToString (v : JsValue) : string :=
  match v with
  | VUndefined => "undefined"
  | VNull => "null"
  | VBool true => "true"
  | VBool false => "false"
  | VNum n => pretty n
  | VStr s => s
  | VArr elems =>
      strJoin "," (List.map (λ e, if isNullish e then "" else ToString e) elems)
  | VObj _ => "[object Object]"
  end.

(** [a === b] and the SameValueZero comparison of [Array.prototype.includes].
    Primitives compare by value, and a primitive never equals an object or
    an array. Two objects or arrays compare by reference, which a value of
    this model does not carry: the answer given for them, [false], is the
    answer for two distinct objects only, and the statements below compare
    with a string or a number on one side at least. *)
Definition strictEquals (a b : JsValue) : bool :=
  match a, b with
  | VUndefined, VUndefined => true
  | VNull, VNull => true
  | VBool x, VBool y => Bool.eqb x y
  | VNum x, VNum y => x =? y
  | VStr x, VStr y => String.eqb x y
  | _, _ => false
  end.

(** [xs.includes(x)] *)
Definition arrayIncludes (xs : list JsValue) (x : JsValue) : bool :=
  existsb (λ y, strictEquals y x) xs.

(** [xs[0]] *)
Definition arrayFirst (xs : list JsValue) : JsValue :=
  match xs with
  | [] => VUndefined
  | x :: _ => x
  end.

(** [s.split(sep)] for a one-character separator: never empty. *)
Fixpoint strSplit (sep : ascii) (s : string) : list string :=
  match s with
  | EmptyString => [""]
  | String c rest =>
      if Ascii.eqb c sep then "" :: strSplit sep rest
      else match strSplit sep rest with
           | [] => [String c ""]
           | w :: ws => String c w :: ws
           end
  end.

(** [s.includes(c)] for a one-character needle. *)
Fixpoint strIncludes (c : ascii) (s : string) : bool :=
  match s with
  | EmptyString => false
  | String d rest => Ascii.eqb d c || strIncludes c rest
  end.

(** Own-entry lookup in an object. *)
Fixpoint field (key : string) (fields : list (string * JsValue)) : option JsValue :=
  match fields with
  | [] => None
  | (k, v) :: rest => if String.eqb k key then Some v else field key rest
  end.

Fixpoint digits (s : string) (acc : N) : option N :=
  match s with
  | EmptyString => Some acc
  | String c rest =>
      match Ascii.is_nat c with
      | Some d => digits rest (10 * acc + N.of_nat d)%N
      | None => None
      end
  end.

(** A property key that is a canonical array index: the decimal numeral of
    a natural number, without sign or leading zeros. *)
Definition arrayIndex (key : string) : option nat :=
  match key with
  | EmptyString => None
  | _ =>
      match digits key 0%N with
      | Some n => if String.eqb (pretty n) key then Some (N.to_nat n) else None
      | None => None
      end
  end.

(** [object[key]], as far as the data decides it. Reading a property of
    [null] or [undefined] throws; an object answers with its own entry, an
    array with an element or its [length], a string with a character or its
    [length] (counted in bytes, which is the count of the runtime for text
    in ASCII); a key that the data does not hold reads as [undefined]. What
    the prototypes add, the methods of objects, arrays, strings, numbers
    and booleans, is not data and is not modelled: [plainRead] below says
    for which reads the answer given here is the answer of the runtime. *)
Definition getProperty (object : JsValue) (key : string) : outcome JsValue :=
  match object with
  | VUndefined | VNull =>
      Throw (TypeError ("Cannot read properties of " +:+ ToString object))
  | VObj fields => Ok (default VUndefined (field key fields))
  | VArr elems =>
      if String.eqb key "length" then Ok (VNum (Z.of_nat (length elems)))
      else match arrayIndex key with
           | Some i => Ok (default VUndefined (elems !! i))
           | None => Ok VUndefined
           end
  | VStr s =>
      if String.eqb key "length" then Ok (VNum (Z.of_nat (String.length s)))
      else match arrayIndex key with
           | Some i =>
               Ok (match String.get i s with
                   | Some c => VStr (String c "")
                   | None => VUndefined
                   end)
           | None => Ok VUndefined
           end
  | VBool _ | VNum _ => Ok VUndefined
  end.

(** [xs.find(pred)]: the first element that satisfies [pred], [undefined]
    when there is none; a throwing callback aborts the search. *)
Fixpoint arrayFind (pred : JsValue → outcome bool) (xs : list JsValue) : outcome JsValue :=
  match xs with
  | [] => Ok VUndefined
  | x :: rest =>
      let* hit := pred x in
      if hit then Ok x else arrayFind pred rest
  end.

(** [xs.filter(pred)] *)
Fixpoint arrayFilter (pred : JsValue → outcome bool) (xs : list JsValue) : outcome (list JsValue) :=
  match xs with
  | [] => Ok []
  | x :: rest =>
      let* hit := pred x in
      let* kept := arrayFilter pred rest in
      Ok (if hit then x :: kept else kept)
  end.

(** [xs.map(f)] *)
Fixpoint arrayMap (f : JsValue → outcome JsValue) (xs : list JsValue) : outcome (list JsValue) :=
  match xs with
  | [] => Ok []
  | x :: rest =>
      let* y := f x in
      let* ys := arrayMap f rest in
      Ok (y :: ys)
  end.

(** [xs.flatMap(f)]: a result that is an array is spliced in, any other
    result is kept as a single element. *)
Fixpoint arrayFlatMap (f : JsValue → outcome JsValue) (xs : list JsValue) : outcome (list JsValue) :=
  match xs with
  | [] => Ok []
  | x :: rest =>
      let* y := f x in
      let* ys := arrayFlatMap f rest in
      Ok (match y with
          | VArr inner => (inner ++ ys)%list
          | _ => y :: ys
          end)
  end.

(** Calling a method of [Array.prototype] on a receiver that may not be an
    array: [undefined.find] cannot be read, and [x.find] is not a function
    on any other non-array of the model. *)
Definition asArray (method : string) (receiver : JsValue) : outcome (list JsValue) :=
  match receiver with
  | VArr elems => Ok elems
  | VUndefined | VNull =>
      Throw (TypeError ("Cannot read properties of " +:+ ToString receiver))
  | _ => Throw (TypeError (method +:+ " is not a function"))
  end.

End Js.
Export Js.

(** ** lodash [get]

    [get(object, path)] for a dotted path. [castPath] takes the path as one
    key when it holds no dot or when the object owns an entry under the
    whole path ([isKey]), and splits it on ['.'] otherwise
    ([stringToPath]); the keys are then read one after the other, the read
    being guarded by [object != null] at every step ([baseGet]); a walk
    that stops before the last key answers [undefined]. The paths of the
    component are those of its [NestedKeyOf] type, key names joined by
    dots: the bracket syntax that [stringToPath] also parses ([a[0].b]) is
    left out, and a path that holds ['['] or [']'] is outside the model. *)

Module Lodash.

(** [value in Object(object)], for a path that holds a dot: no inherited
    name, index or [length] holds one, so only an own entry can answer. *)
Definition hasOwn (object : JsValue) (key : string) : bool :=
  match object with
  | VObj fields =>
      match field key fields with
      | Some _ => true
      | None => false
      end
  | _ => false
  end.

Definition isKey (path : string) (object : JsValue) : bool :=
  negb (strIncludes "." path) || hasOwn object path.

Definition stringToPath (path : string) : list string := strSplit "." path.

Definition castPath (path : string) (object : JsValue) : list string :=
  if isKey path object then [path] else stringToPath path.

(** The loop of [baseGet]; [index] counts the keys consumed. *)
Fixpoint baseGetLoop (object : JsValue) (path : list string) : outcome (option JsValue) :=
  match path with
  | [] => Ok (Some object)
  | key :: rest =>
      if isNullish object then Ok None
      else let* next := getProperty object key in baseGetLoop next rest
  end.

Definition baseGet (object : JsValue) (path : string) : outcome JsValue :=
  let keys := castPath path object in
  let* walked := baseGetLoop object keys in
  match keys, walked with
  | _ :: _, Some result => Ok result
  | _, _ => Ok VUndefined
  end.

Definition get (object : JsValue) (path : string) : outcome JsValue :=
  if isNullish object then Ok VUndefined else baseGet object path.

End Lodash.

(** ** [getValueFromPath] *)

(** [PathOrFunction<T, R>]: a dotted path or an extractor. Extractors are
    pure functions of the item, which answer on every item: an extractor
    that throws is outside the model. *)
Inductive PathOrFunction : Type :=
| Path (path : string)
| Fn (fn : JsValue → JsValue).

Definition getValueFromPath (item : JsValue) (pathOrFn : PathOrFunction) : outcome JsValue :=
  match pathOrFn with
  | Fn fn => Ok (fn item)
  | Path path => Lodash.get item path
  end.

(** ** [URLSearchParams]

    The pairs in insertion order; [toString] is the
    application/x-www-form-urlencoded serializer: letters, digits and
    [*-._] stay, a space becomes [+], every other byte is written as [%XX]
    with upper-case hexadecimal digits. *)

Module URLSearchParams.

Definition t : Type := list (string * string).

Definition empty : t := [].

Definition append (searchParams : t) (name value : string) : t :=
  (searchParams ++ [(name, value)])%list.

Definition hexDigit (n : N) : ascii :=
  match n with
  | 0 => "0" | 1 => "1" | 2 => "2" | 3 => "3" | 4 => "4" | 5 => "5"
  | 6 => "6" | 7 => "7" | 8 => "8" | 9 => "9" | 10 => "A" | 11 => "B"
  | 12 => "C" | 13 => "D" | 14 => "E" | _ => "F"
  end%char%N.

Definition unreserved (c : ascii) : bool :=
  let n := N_of_ascii c in
  ((48 <=? n) && (n <=? 57) || (65 <=? n) && (n <=? 90)
   || (97 <=? n) && (n <=? 122)
   || (n =? 42) || (n =? 45) || (n =? 46) || (n =? 95))%N.

Definition encodeByte (c : ascii) : string :=
  if unreserved c then String c ""
  else if Ascii.eqb c " " then "+"
  else let n := N_of_ascii c in
       String "%" (String (hexDigit (n / 16)) (String (hexDigit (n mod 16)) "")).

Fixpoint encode (s : string) : string :=
  match s with
  | EmptyString => ""
  | String c rest => encodeByte c +:+ encode rest
  end.

Definition encodePair (pair : string * string) : string :=
  encode pair.1 +:+ "=" +:+ encode pair.2.

Definition toString (searchParams : t) : string :=
  strJoin "&" (List.map encodePair searchParams).

End URLSearchParams.

(** ** [buildUrl] *)

(** A value of [QueryParams]: [string | number]. *)
Inductive ParamValue : Type :=
| PStr (s : string)
| PNum (n : Z).

Global Instance ParamValue_eq_dec : EqDecision ParamValue.
Proof. solve_decision. Defined.

(** [value.toString()] *)
Definition paramToString (value : ParamValue) : string :=
  match value with
  | PStr s => s
  | PNum n => pretty n
  end.

(** [QueryParams]: the entries of the object as [Object.entries] lists
    them. *)
Definition QueryParams : Type := list (string * ParamValue).

Definition buildUrl (baseUrl : string) (params : QueryParams)
    (searchTerm : string) (searchable : bool) : string :=
  let searchParams := URLSearchParams.empty in
  let searchParams :=
    if searchable && negb (String.eqb searchTerm "")
    then URLSearchParams.append searchParams "search" searchTerm
    else searchParams in
  let searchParams :=
    fold_left (λ acc entry,
                 URLSearchParams.append acc entry.1 (paramToString entry.2))
              params searchParams in
  let queryString := URLSearchParams.toString searchParams in
  if negb (String.eqb queryString "")
  then baseUrl +:+ (if strIncludes "?" baseUrl then "&" else "?") +:+ queryString
  else baseUrl.

(** ** The component: props, state and what the query hooks report *)

(** [url]: a string, or (paginated configurations) a function of the page
    parameter. None of the properties below calls the function; it is
    represented by the identity of its closure, which is what a comparison
    of query keys can see of it. *)
Inductive Url : Type :=
| UrlString (s : string)
| UrlFunction (ref : nat).

Definition isUrlString (url : Url) : bool :=
  match url with
  | UrlString _ => true
  | UrlFunction _ => false
  end.

(** A callback handed in by the caller ([onChange], [onFocus]). *)
Inductive Callback : Type :=
| CallbackRef (ref : nat).

Record Props : Type := {
  url : Url;
  valueField : PathOrFunction;
  labelField : PathOrFunction;
  optionsPath : option PathOrFunction;
  onChange : option Callback;
  value : JsValue;
  searchable : bool;
  queryParams : QueryParams;
  infinite : bool;
  onFocus : option Callback
}.

(** [React.useState('')] and [React.useState(false)] *)
Record State : Type := {
  inputValue : string;
  focusedInput : bool
}.

Definition initialState : State :=
  {| inputValue := ""; focusedInput := false |}.

(** [regularQuery.data] *)
Record RegularQuery : Type := {
  regularData : JsValue
}.

(** [infiniteQuery]: [data] is [undefined] or holds the [pages]. *)
Record InfiniteQuery : Type := {
  infiniteData : option (list JsValue);
  hasNextPage : bool;
  isFetchingNextPage : bool
}.

(** What a handler does besides computing: calls of the caller's
    callbacks, state updates and page fetches, in program order. *)
Inductive Effect : Type :=
| Invoke (callback : Callback) (args : list JsValue)
| SetInputValue (newValue : string)
| SetFocusedInput (focused : bool)
| FetchNextPage.

(** ** Query keys *)

Inductive KeyElem : Type :=
| KString (s : string)
| KFunction (ref : nat)
| KObject (entries : QueryParams)
| KBoolean (b : bool).

Definition QueryKey : Type := list KeyElem.

Definition keyOfUrl (url : Url) : KeyElem :=
  match url with
  | UrlString s => KString s
  | UrlFunction ref => KFunction ref
  end.

Definition baseQueryKey (props : Props) (state : State) : QueryKey :=
  let baseQueryKey :=
    [KString "async-autocomplete"; keyOfUrl (url props);
     KObject (queryParams props); KBoolean (searchable props)] in
  if searchable props
  then (baseQueryKey ++ [KString (inputValue state)])%list
  else baseQueryKey.

Definition infiniteQueryKey (props : Props) (state : State) : QueryKey :=
  (baseQueryKey props state ++ [KString "infinite"])%list.

(** The parameter object as a finite map: what deep equality compares. *)
Definition paramMap (entries : QueryParams) : gmap string ParamValue :=
  list_to_map entries.

(** Structural equality of two key elements: primitives by value,
    functions by reference, objects by their entries whatever the order. *)
Definition keyElemEquals (a b : KeyElem) : bool :=
  match a, b with
  | KString x, KString y => bool_decide (x = y)
  | KFunction x, KFunction y => bool_decide (x = y)
  | KObject p, KObject q => bool_decide (paramMap p = paramMap q)
  | KBoolean x, KBoolean y => bool_decide (x = y)
  | _, _ => false
  end.

(** Structural equality of two keys: same length, equal element by
    element. *)
Fixpoint queryKeyEquals (k1 k2 : QueryKey) : bool :=
  match k1, k2 with
  | [], [] => true
  | a :: k1', b :: k2' => keyElemEquals a b && queryKeyEquals k1' k2'
  | _, _ => false
  end.

(** [enabled] of the two queries *)
Definition regularEnabled (props : Props) (state : State) : bool :=
  focusedInput state && negb (infinite props) && isUrlString (url props).

Definition infiniteEnabled (props : Props) (state : State) : bool :=
  focusedInput state && infinite props.

(** ** [options] *)

(** [optionsPath ? ... : ...]: an absent path and the empty string are
    falsy. *)
Definition truthyPath (pathOrFn : option PathOrFunction) : option PathOrFunction :=
  match pathOrFn with
  | Some (Path "") => None
  | other => other
  end.

Definition options (props : Props) (regularQuery : RegularQuery)
    (infiniteQuery : InfiniteQuery) : outcome JsValue :=
  match infinite props, infiniteData infiniteQuery with
  | true, Some pages =>
      let* allPages :=
        arrayFlatMap (λ page,
          match truthyPath (optionsPath props) with
          | Some pathOrFn => getValueFromPath page pathOrFn
          | None => Ok page
          end) pages in
      Ok (VArr allPages)
  | _, _ =>
      if toBoolean (regularData regularQuery) then
        match truthyPath (optionsPath props) with
        | Some pathOrFn => getValueFromPath (regularData regularQuery) pathOrFn
        | None => Ok (regularData regularQuery)
        end
      else Ok (VArr [])
  end.

(** ** [handleChange] *)

Definition handleChange (props : Props) (option : JsValue) : outcome (list Effect) :=
  match toBoolean option, onChange props with
  | true, Some onChange =>
      match option with
      | VArr items =>
          let* values :=
            arrayMap (λ item, getValueFromPath item (valueField props)) items in
          Ok [Invoke onChange [VArr values; option]]
      | _ =>
          let* value := getValueFromPath option (valueField props) in
          Ok [Invoke onChange [value; option]]
      end
  | _, _ => Ok []
  end.

(** ** [findOptionByValue] and [isOptionEqualToValue] *)

(** The callback of the scalar branch:
    [String(getValueFromPath(option, valueField)) === val.toString()] *)
Definition matchesScalar (valueField : PathOrFunction) (val option : JsValue) : outcome bool :=
  let* extracted := getValueFromPath option valueField in
  Ok (String.eqb (ToString extracted) (ToString val)).

Definition findOptionByValue (options : JsValue) (valueField : PathOrFunction)
    (val : JsValue) : outcome JsValue :=
  if negb (toBoolean val) then Ok VNull
  else match val with
  | VStr _ | VNum _ =>
      let* receiver := asArray "options.find" options in
      let* found := arrayFind (matchesScalar valueField val) receiver in
      Ok (nullishCoalesce found VNull)
  | VArr ids =>
      match typeof (arrayFirst ids) with
      | TString =>
          let* receiver := asArray "options.filter" options in
          let* kept :=
            arrayFilter (λ option,
              let* extracted := getValueFromPath option valueField in
              Ok (arrayIncludes ids (VStr (ToString extracted)))) receiver in
          Ok (VArr kept)
      | TNumber =>
          let* receiver := asArray "options.filter" options in
          let* kept :=
            arrayFilter (λ option,
              let* extracted := getValueFromPath option valueField in
              Ok (arrayIncludes ids extracted)) receiver in
          Ok (VArr kept)
      | _ => Ok val
      end
  | _ => Ok val
  end.

(** [value={findOptionByValue(value)}]: what the list renderer is given as
    the selection. *)
Definition selectedValue (props : Props) (options : JsValue) : outcome JsValue :=
  findOptionByValue options (valueField props) (value props).

(** [value.some(pred)] *)
Fixpoint arraySome (pred : JsValue → outcome bool) (xs : list JsValue) : outcome bool :=
  match xs with
  | [] => Ok false
  | x :: rest =>
      let* hit := pred x in
      if hit then Ok true else arraySome pred rest
  end.

(** The comparison of two extracted values,
    [getValueFromPath(option, valueField) === getValueFromPath(v, valueField)] *)
Definition sameExtracted (valueField : PathOrFunction) (option v : JsValue) : outcome bool :=
  let* a := getValueFromPath option valueField in
  let* b := getValueFromPath v valueField in
  Ok (strictEquals a b).

Definition isOptionEqualToValue (valueField : PathOrFunction) (value option : JsValue)
    : outcome bool :=
  if negb (toBoolean value) then Ok false
  else
    let value := match value with VNum _ => VStr (ToString value) | _ => value end in
    match value with
    | VStr _ => matchesScalar valueField value option
    | VArr members =>
        arraySome (λ v,
          match v with
          | VStr _ | VNum _ => matchesScalar valueField v option
          | _ => sameExtracted valueField option v
          end) members
    | _ => sameExtracted valueField option value
    end.

(** ** [handleScroll] and [handleFocus] *)

(** [event.currentTarget]: the scroll geometry of the list box. *)
Record ListGeometry : Type := {
  scrollTop : Z;
  clientHeight : Z;
  scrollHeight : Z
}.

Definition handleScroll (props : Props) (infiniteQuery : InfiniteQuery)
    (listbox : ListGeometry) : list Effect :=
  if infinite props
     && (scrollHeight listbox - 50 <=? scrollTop listbox + clientHeight listbox)
     && hasNextPage infiniteQuery
     && negb (isFetchingNextPage infiniteQuery)
  then [FetchNextPage]
  else [].

Definition handleFocus (props : Props) (e : JsValue) : list Effect :=
  (match onFocus props with
   | Some onFocus => [Invoke onFocus [e]]
   | None => []
   end ++ [SetFocusedInput true])%list.

(** ** The component as a transition system

    The events the list renderer emits, each with the handler the component
    registers for it. The component registers nothing for a blur. *)

Inductive Event : Type :=
| Focus (e : JsValue)
| Blur
| InputChange (newValue : string)
| Change (option : JsValue)
| Scroll (listbox : ListGeometry).

Definition dispatch (props : Props) (infiniteQuery : InfiniteQuery)
    (event : Event) : outcome (list Effect) :=
  match event with
  | Focus e => Ok (handleFocus props e)
  | Blur => Ok []
  | InputChange newValue => Ok [SetInputValue newValue]
  | Change option => handleChange props option
  | Scroll listbox => Ok (handleScroll props infiniteQuery listbox)
  end.

Definition applyEffect (state : State) (effect : Effect) : State :=
  match effect with
  | SetInputValue newValue =>
      {| inputValue := newValue; focusedInput := focusedInput state |}
  | SetFocusedInput focused =>
      {| inputValue := inputValue state; focusedInput := focused |}
  | Invoke _ _ | FetchNextPage => state
  end.

(** One event: the state updates of its handler are applied in order; a
    handler that throws leaves the state as it was. *)
Definition step (props : Props) (state : State)
    (occurrence : InfiniteQuery * Event) : State :=
  match dispatch props occurrence.1 occurrence.2 with
  | Ok effects => fold_left applyEffect effects state
  | Throw _ => state
  end.

(** A run: events in order, each with the query status of its render. *)
Definition run (props : Props) (state : State)
    (events : list (InfiniteQuery * Event)) : State :=
  fold_left (step props) events state.

Definition isFocus (event : Event) : bool :=
  match event with
  | Focus _ => true
  | _ => false
  end.

(** Some query may fetch. *)
Definition fetchEnabled (props : Props) (state : State) : bool :=
  regularEnabled props state || infiniteEnabled props state.

(** ** The query functions *)

(** What a query function does before the network answers: it resolves
    with data it already holds, or requests a URL, whose parsed body
    ([response.json()]) it then resolves with. *)
Inductive QueryFnResult : Type :=
| Resolve (data : JsValue)
| FetchJson (fullUrl : string).

(** [queryFn] of the single-page query. [cachedData] is what
    [queryClient.getQueryData(baseQueryKey)] answers, [undefined] when the
    cache has no entry under the key. *)
Definition regularQueryFn (props : Props) (state : State)
    (cachedData : JsValue) : QueryFnResult :=
  if toBoolean cachedData then Resolve cachedData
  else match url props with
       | UrlFunction _ => Resolve VNull
       | UrlString url =>
           let fullUrl :=
             buildUrl url (queryParams props) (inputValue state) (searchable props) in
           FetchJson fullUrl
       end.

(** [queryFn] of the paginated query. [callUrl ref pageParam] is the
    result of calling the closure behind a function URL on the page
    parameter. *)
Definition infiniteQueryFn (callUrl : nat → JsValue → string) (props : Props)
    (state : State) (pageParam : JsValue) : QueryFnResult :=
  let baseUrl :=
    match url props with
    | UrlString url => url
    | UrlFunction ref => callUrl ref pageParam
    end in
  let fullUrl :=
    buildUrl baseUrl (queryParams props) (inputValue state) (searchable props) in
  FetchJson fullUrl.

(** What the handlers of a run do, in order; a handler that throws
    contributes nothing. *)
Definition effectsOf (props : Props) (occurrence : InfiniteQuery * Event) : list Effect :=
  match dispatch props occurrence.1 occurrence.2 with
  | Ok effects => effects
  | Throw _ => []
  end.

Definition trace (props : Props) (events : list (InfiniteQuery * Event)) : list Effect :=
  flat_map (effectsOf props) events.

(** ** Vocabulary of the statements *)

(** The value an extraction yields, for statements that name it. *)
Definition extracted (item : JsValue) (pathOrFn : PathOrFunction) : JsValue :=
  match getValueFromPath item pathOrFn with
  | Ok v => v
  | Throw _ => VUndefined
  end.

(** The pairs a request carries: [search] first, when searching is on and
    there is text, then the static parameters in the order of the map. *)
Definition requestPairs (params : QueryParams) (searchTerm : string)
    (searchable : bool) : list (string * string) :=
  ((if searchable && negb (String.eqb searchTerm "")
    then [("search", searchTerm)] else [])
   ++ List.map (λ entry, (entry.1, paramToString entry.2)) params)%list.

(** A path in which lodash finds no bracket syntax. *)
Definition bracketFree (path : string) : bool :=
  negb (strIncludes "[" path) && negb (strIncludes "]" path).

(** The names every object inherits from [Object.prototype]. *)
Definition objectPrototypeNames : list string :=
  ["constructor"; "hasOwnProperty"; "isPrototypeOf"; "propertyIsEnumerable";
   "toLocaleString"; "toString"; "valueOf"; "__proto__"; "__defineGetter__";
   "__defineSetter__"; "__lookupGetter__"; "__lookupSetter__"].

Definition inheritedByObjects (key : string) : bool :=
  bool_decide (key ∈ objectPrototypeNames).

Fixpoint allDigits (key : string) : bool :=
  match key with
  | EmptyString => true
  | String c rest =>
      match Ascii.is_nat c with
      | Some _ => allDigits rest
      | None => false
      end
  end.

(** A read that the data decides, so that [getProperty] answers as the
    runtime does: a key of an object that the object owns or that no object
    inherits, the [length] of an array or a key of an array written in
    digits. A read of a string, a number or a boolean is none: their
    prototypes answer for many keys, and a string counts its length in
    UTF-16 units. *)
Definition plainRead (object : JsValue) (key : string) : bool :=
  match object with
  | VUndefined | VNull => true
  | VObj _ => Lodash.hasOwn object key || negb (inheritedByObjects key)
  | VArr _ => String.eqb key "length" || allDigits key
  | VBool _ | VNum _ | VStr _ => false
  end.

(** Every read of a walk is decided by the data. *)
Fixpoint plainWalk (object : JsValue) (path : list string) : bool :=
  match path with
  | [] => true
  | key :: rest =>
      isNullish object
      || plainRead object key
         && match getProperty object key with
            | Ok next => plainWalk next rest
            | Throw _ => true
            end
  end.

(** The key cannot be read from the value: the value is [null] or
    [undefined], or an object that neither owns nor inherits the key, or an
    array without an element at that index. *)
Definition missingRead (object : JsValue) (key : string) : bool :=
  match object with
  | VUndefined | VNull => true
  | VObj fields =>
      negb (Lodash.hasOwn object key) && negb (inheritedByObjects key)
  | VArr elems =>
      allDigits key
      && match arrayIndex key with
         | Some i => bool_decide (length elems ≤ i)%nat
         | None => true
         end
  | VBool _ | VNum _ | VStr _ => false
  end.

(** What the list renderer passes when the selection is cleared: [null]
    for a single selection, the empty list for a multiple one. *)
Definition clearedSelection (option : JsValue) : bool :=
  match option with
  | VNull | VArr [] => true
  | _ => false
  end.

(** The integers that are JavaScript numbers printed in decimal. *)
Definition isSafeInteger (n : Z) : Prop := - 2 ^ 53 < n < 2 ^ 53.

(** A character that the form encoding can produce: a letter, a digit or
    one of [*-._] left as it is, the [+] of a space, the [%] of an escape. *)
Definition formSafe (c : ascii) : bool :=
  URLSearchParams.unreserved c || Ascii.eqb c "+" || Ascii.eqb c "%".

(** [val] is a string or a number. *)
Definition isScalar (val : JsValue) : bool :=
  match val with
  | VStr _ | VNum _ => true
  | _ => false
  end.

(** The value field of [option], extracted and stringified, equals the
    stringified [val]. *)
Definition matchesValue (valueField : PathOrFunction) (val option : JsValue) : Prop :=
  ToString (extracted option valueField) = ToString val.

(** The value field of [option], extracted and stringified, is a member of
    the stringified id list. *)
Definition memberOfIds (valueField : PathOrFunction) (ids : list JsValue)
    (option : JsValue) : Prop :=
  ToString (extracted option valueField) ∈ List.map ToString ids.

Global Instance memberOfIds_dec valueField ids option :
  Decision (memberOfIds valueField ids option).
Proof. unfold memberOfIds. apply _. Defined.

(** How far the visible part of the list is from its scrollable end. *)
Definition distanceToEnd (listbox : ListGeometry) : Z :=
  scrollHeight listbox - (scrollTop listbox + clientHeight listbox).

(** Focus gating as the specification words it: without a focus event no
    query is enabled, and from the first focus event on some query is. *)
Definition focusGatingAsStated (props : Props)
    (events : list (InfiniteQuery * Event)) : Prop :=
  fetchEnabled props (run props initialState events)
  = existsb (λ occurrence, isFocus occurrence.2) events.

(** ** Example data *)

Definition acmeItem : JsValue :=
  VObj [("company", VObj [("name", VStr "Acme")])].

(** An item that owns an entry under a key with a dot. *)
Definition dottedKeyItem : JsValue := VObj [("a.b", VNum 5)].

(** An item with a string entry. *)
Definition namedItem : JsValue := VObj [("name", VStr "abc")].

Definition optionA : JsValue := VObj [("id", VNum 1); ("name", VStr "a")].
Definition optionB : JsValue := VObj [("id", VNum 2); ("name", VStr "b")].
Definition optionZero : JsValue := VObj [("id", VNum 0); ("name", VStr "zero")].
Definition optionEmpty : JsValue := VObj [("id", VStr ""); ("name", VStr "none")].
Definition optionStringId : JsValue := VObj [("id", VStr "1"); ("name", VStr "a")].

(** A response that wraps its items: [{data:[...]}]. *)
Definition wrappedBody : JsValue := VObj [("data", VArr [optionA; optionB])].

(** A configuration with the fields [id] and [name], an [onChange]
    callback and no static parameters. *)
Definition configure (url : Url) (optionsPath : option PathOrFunction)
    (infinite : bool) : Props := {|
  url := url;
  valueField := Path "id";
  labelField := Path "name";
  optionsPath := optionsPath;
  onChange := Some (CallbackRef 0);
  value := VUndefined;
  searchable := false;
  queryParams := [];
  infinite := infinite;
  onFocus := None
|}.

Definition usersUrl : Url := UrlString "https://example.org/users".

Definition exampleProps : Props := configure usersUrl None false.
Definition paginatedProps : Props := configure usersUrl None true.
Definition functionUrlProps : Props := configure (UrlFunction 0) None false.

Definition idleQuery : InfiniteQuery :=
  {| infiniteData := None; hasNextPage := false; isFetchingNextPage := false |}.

Definition pagingQuery : InfiniteQuery :=
  {| infiniteData := Some [VArr [optionA]]; hasNextPage := true;
     isFetchingNextPage := false |}.

(** Forty units above the scrollable end. *)
Definition nearEnd : ListGeometry :=
  {| scrollTop := 460; clientHeight := 300; scrollHeight := 800 |}.

(** ** Vocabulary of the further properties *)

(** The text of the last input change of a run, [initial] when there is
    none. *)
Definition lastTyped (initial : string) (events : list (InfiniteQuery * Event)) : string :=
  fold_left (λ text occurrence,
               match occurrence.2 with
               | InputChange newValue => newValue
               | _ => text
               end) events initial.

Definition isInputChange (event : Event) : bool :=
  match event with
  | InputChange _ => true
  | _ => false
  end.

(** A scroll that passes the gate of [handleScroll]. *)
Definition scrollFetches (occurrence : InfiniteQuery * Event) : bool :=
  match occurrence.2 with
  | Scroll listbox =>
      (scrollHeight listbox - 50 <=? scrollTop listbox + clientHeight listbox)
      && hasNextPage occurrence.1 && negb (isFetchingNextPage occurrence.1)
  | _ => false
  end.

Definition isFetchNextPage (effect : Effect) : bool :=
  match effect with
  | FetchNextPage => true
  | _ => false
  end.

(** How often a character occurs in a string. *)
Fixpoint strCount (c : ascii) (s : string) : nat :=
  match s with
  | EmptyString => 0%nat
  | String d rest => ((if Ascii.eqb d c then 1 else 0) + strCount c rest)%nat
  end.

Definition hexValue (c : ascii) : N :=
  match c with
  | "0" => 0 | "1" => 1 | "2" => 2 | "3" => 3 | "4" => 4 | "5" => 5
  | "6" => 6 | "7" => 7 | "8" => 8 | "9" => 9 | "A" => 10 | "B" => 11
  | "C" => 12 | "D" => 13 | "E" => 14 | _ => 15
  end%char%N.

(** How a receiver reads a form-encoded name or value back: [+] is a
    space, [%XX] the byte with that code, anything else itself. *)
Fixpoint formDecode (s : string) : string :=
  match s with
  | EmptyString => ""
  | String c rest =>
      if Ascii.eqb c "+" then String " " (formDecode rest)
      else if Ascii.eqb c "%" then
        match rest with
        | String high (String low rest') =>
            String (ascii_of_N (16 * hexValue high + hexValue low)) (formDecode rest')
        | _ => String c (formDecode rest)
        end
      else String c (formDecode rest)
  end.

(** [val] sends [findOptionByValue] to the options: a truthy string or
    number, or a list whose first element is a string or a number. *)
Definition needsLookup (val : JsValue) : bool :=
  toBoolean val &&
  match val with
  | VStr _ | VNum _ => true
  | VArr ids =>
      match typeof (arrayFirst ids) with
      | TString | TNumber => true
      | _ => false
      end
  | _ => false
  end.

Definition isArrayValue (v : JsValue) : bool :=
  match v with
  | VArr _ => true
  | _ => false
  end.

(** What a page contributes to the flattened options: its elements when
    it is an array, itself otherwise. *)
Definition pageItems (page : JsValue) : list JsValue :=
  match page with
  | VArr items => items
  | other => [other]
  end.

(** The page after [optionsPath] is applied, when one is configured. *)
Definition pageOptions (props : Props) (page : JsValue) : list JsValue :=
  pageItems (match truthyPath (optionsPath props) with
             | Some pathOrFn => extracted page pathOrFn
             | None => page
             end).

(** Two configurations that list the same parameters in different order. *)
Definition sortedParams : Props := {|
  url := usersUrl; valueField := Path "id"; labelField := Path "name";
  optionsPath := None; onChange := None; value := VUndefined;
  searchable := true;
  queryParams := [("limit", PNum 10); ("sort", PStr "name")];
  infinite := false; onFocus := None
|}.

Definition unsortedParams : Props := {|
  url := usersUrl; valueField := Path "id"; labelField := Path "name";
  optionsPath := None; onChange := None; value := VUndefined;
  searchable := true;
  queryParams := [("sort", PStr "name"); ("limit", PNum 10)];
  infinite := false; onFocus := None
|}.

(** The render after focus and typing ["ab"]. *)
Definition typedState : State := {| inputValue := "ab"; focusedInput := true |}.

(** A closure table for function URLs: every closure appends the [page]
    field of the page parameter to a fixed endpoint. *)
Definition pagedUrl (ref : nat) (pageParam : JsValue) : string :=
  "https://example.org/users/page/" +:+ ToString (extracted pageParam (Path "page")).

Definition focusTypeScroll : list (InfiniteQuery * Event) :=
  [(idleQuery, Focus VNull); (idleQuery, InputChange "a");
   (pagingQuery, Scroll nearEnd); (pagingQuery, Change optionA);
   (pagingQuery, Blur)].

(** What [isOptionEqualToValue] compares an option with, for one member
    of a list value: stringified value fields for a string or a number,
    the extracted values themselves for an item. *)
Definition equalsMember (valueField : PathOrFunction) (option v : JsValue) : bool :=
  match v with
  | VStr _ | VNum _ =>
      String.eqb (ToString (extracted option valueField)) (ToString v)
  | _ => strictEquals (extracted option valueField) (extracted v valueField)
  end.

(** The stringified value field of an option. *)
Definition idText (valueField : PathOrFunction) (option : JsValue) : string :=
  ToString (extracted option valueField).

Definition optionC : JsValue := VObj [("id", VNum 3); ("name", VStr "c")].

(** Options whose ids are strings. *)
Definition optionX : JsValue := VObj [("id", VStr "x"); ("name", VStr "a")].
Definition optionY : JsValue := VObj [("id", VStr "y"); ("name", VStr "b")].
Definition optionZ : JsValue := VObj [("id", VStr "z"); ("name", VStr "c")].

(** * Properties *)

(** ** Outcomes *)

Lemma returns_Ok {A : Type} (a : A) : returns (Ok a).
Proof. by exists a. Qed.

Lemma returns_obind {A B : Type} (m : outcome A) (k : A → outcome B) :
  returns m → (∀ a, returns (k a)) → returns (obind m k).
Proof. intros [a ->] Hk. apply Hk. Qed.

#[local] Hint Resolve returns_Ok : core.

(** ** The path resolver *)

Section PathResolver.

Import Lodash.

Lemma getProperty_returns (object : JsValue) (key : string) :
  isNullish object = false → returns (getProperty object key).
Proof.
  destruct object; simpl; try discriminate; intros _; auto.
  all: destruct (String.eqb key "length"); auto.
  all: destruct (arrayIndex key); auto.
Qed.

(** The guard [object != null] of the loop is what keeps every read
    defined: the walk returns on every object and every list of keys. *)
Lemma baseGetLoop_returns (path : list string) :
  ∀ object, returns (baseGetLoop object path).
Proof.
  induction path as [|key rest IH]; intros object; simpl; auto.
  destruct (isNullish object) eqn:Hnull; auto.
  destruct (getProperty_returns object key Hnull) as [next ->].
  apply IH.
Qed.

Lemma baseGetLoop_app (pre post : list string) :
  ∀ object,
    baseGetLoop object (pre ++ post) =
    match baseGetLoop object pre with
    | Ok (Some reached) => baseGetLoop reached post
    | Ok None => Ok None
    | Throw e => Throw e
    end.
Proof.
  induction pre as [|key pre IH]; intros object; simpl; [done|].
  destruct (isNullish object); [done|].
  destruct (getProperty object key); simpl; [apply IH|done].
Qed.

(** Once the walk holds [undefined] it never recovers. *)
Lemma baseGetLoop_undefined (path : list string) :
  baseGetLoop VUndefined path
  = Ok (match path with [] => Some VUndefined | _ => None end).
Proof. by destruct path. Qed.

Lemma baseGetLoop_stuck (reached : JsValue) (key : string) (rest : list string) :
  isNullish reached = true ∨ getProperty reached key = Ok VUndefined →
  baseGetLoop reached (key :: rest) = Ok None
  ∨ baseGetLoop reached (key :: rest) = Ok (Some VUndefined).
Proof.
  intros [Hnull|Hmiss]; simpl.
  - rewrite Hnull. by left.
  - destruct (isNullish reached); [by left|].
    rewrite Hmiss. simpl. rewrite baseGetLoop_undefined.
    destruct rest; [by right|by left].
Qed.

Lemma get_returns (object : JsValue) (path : string) :
  returns (get object path).
Proof.
  unfold get, baseGet. destruct (isNullish object); auto.
  destruct (baseGetLoop_returns (castPath path object) object) as [walked ->]; simpl.
  destruct (castPath path object), walked; auto.
Qed.

Lemma getValueFromPath_returns (item : JsValue) (pathOrFn : PathOrFunction) :
  returns (getValueFromPath item pathOrFn).
Proof. destruct pathOrFn; simpl; auto using get_returns. Qed.

Lemma getValueFromPath_extracted (item : JsValue) (pathOrFn : PathOrFunction) :
  getValueFromPath item pathOrFn = Ok (extracted item pathOrFn).
Proof.
  unfold extracted.
  by destruct (getValueFromPath_returns item pathOrFn) as [v ->].
Qed.

End PathResolver.

Lemma String_eqb_digits_length (key : string) :
  allDigits key = true → String.eqb key "length" = false.
Proof.
  intros Hdigits. apply String.eqb_neq. intros ->. discriminate.
Qed.

(** A key that cannot be read stops the walk or reads as [undefined]. *)
Lemma missingRead_stuck (reached : JsValue) (key : string) :
  missingRead reached key = true →
  isNullish reached = true ∨ getProperty reached key = Ok VUndefined.
Proof.
  destruct reached as [| | | | |elems|fields]; simpl; try done; auto.
  - intros [Hdigits Hindex]%andb_true_iff. right.
    rewrite String_eqb_digits_length by done.
    destruct (arrayIndex key) as [i|]; [|done].
    apply bool_decide_eq_true in Hindex.
    by rewrite (lookup_ge_None_2 elems i).
  - intros [Hown _]%andb_true_iff. right.
    by destruct (field key fields).
Qed.

(** A path that the item owns as one key is read as that key. *)
Lemma get_own_entry (fields : list (string * JsValue)) (path : string)
    (entry : JsValue) :
  field path fields = Some entry →
  Lodash.get (VObj fields) path = Ok entry.
Proof.
  intros Hown. unfold Lodash.get, Lodash.baseGet, Lodash.castPath, Lodash.isKey.
  simpl. rewrite Hown, orb_true_r. simpl. by rewrite Hown.
Qed.




(** ** The URL builder *)

Section UrlBuilder.

Import URLSearchParams.

Lemma append_nonempty (a b : string) (c : ascii) : a +:+ String c b ≠ "".
Proof. by destruct a. Qed.

Lemma encodePair_nonempty (pair : string * string) : encodePair pair ≠ "".
Proof. unfold encodePair. apply append_nonempty. Qed.

Lemma strJoin_nonempty (sep x : string) (rest : list string) :
  x ≠ "" → strJoin sep (x :: rest) ≠ "".
Proof.
  intros Hx. destruct rest as [|y rest]; simpl; [done|].
  destruct x; [done|discriminate].
Qed.

Lemma toString_empty_iff (searchParams : t) :
  toString searchParams = "" ↔ searchParams = [].
Proof.
  split; [|by intros ->].
  destruct searchParams as [|pair rest]; [done|]. unfold toString. simpl.
  intros H. by apply strJoin_nonempty in H; [|apply encodePair_nonempty].
Qed.

(** The [forEach] over [Object.entries(params)] appends one pair per
    entry, in order, after what is already there. *)
Lemma forEach_append (params : QueryParams) :
  ∀ searchParams,
    fold_left (λ acc entry, append acc entry.1 (paramToString entry.2))
              params searchParams
    = (searchParams ++ List.map (λ entry, (entry.1, paramToString entry.2)) params)%list.
Proof.
  induction params as [|entry params IH]; intros searchParams; simpl.
  - by rewrite app_nil_r.
  - rewrite IH. unfold append. by rewrite <- app_assoc.
Qed.

Lemma hexDigit_unreserved (n : N) : unreserved (hexDigit n) = true.
Proof.
  destruct n as [|p]; [done|].
  do 5 (try match goal with q : positive |- _ => destruct q end);
    reflexivity.
Qed.

Lemma encodeByte_safe (c : ascii) :
  Forall (λ d, formSafe d = true) (list_ascii_of_string (encodeByte c)).
Proof.
  unfold encodeByte, formSafe.
  destruct (unreserved c) eqn:Hplain.
  - repeat constructor. by rewrite Hplain.
  - destruct (Ascii.eqb c " "); simpl; repeat constructor;
      by rewrite ?hexDigit_unreserved.
Qed.

Lemma list_ascii_of_string_app (a b : string) :
  list_ascii_of_string (a +:+ b)
  = (list_ascii_of_string a ++ list_ascii_of_string b)%list.
Proof. induction a as [|c a IH]; simpl; [done|]. by rewrite IH. Qed.

(** An encoded name or value holds no [&], [=], [?] or [#]: only plain
    characters, [+] and escapes. *)
Lemma encode_safe (s : string) :
  Forall (λ d, formSafe d = true) (list_ascii_of_string (encode s)).
Proof.
  induction s as [|c s IH]; simpl; [constructor|].
  rewrite list_ascii_of_string_app. apply Forall_app.
  split; [apply encodeByte_safe|apply IH].
Qed.

End UrlBuilder.

(** C5. [buildUrl] appends the [search] pair exactly when [searchable] is
    true and the text is not empty, then one pair per parameter, each name
    and value form-encoded (plain characters, [+] for a space, [%XX]
    escapes) and the pairs joined by [&]; the query string follows the base
    after [&] when the base contains [?], after [?] otherwise, and a
    request without pairs is the base itself. The two examples of the
    specification evaluate as stated. *)
Theorem C5_buildUrl_appends_pairs :
  (∀ baseUrl params searchTerm searchable,
     buildUrl baseUrl params searchTerm searchable =
     match requestPairs params searchTerm searchable with
     | [] => baseUrl
     | pairs =>
         baseUrl +:+ (if strIncludes "?" baseUrl then "&" else "?")
         +:+ strJoin "&" (List.map URLSearchParams.encodePair pairs)
     end)
  ∧ (∀ searchTerm searchable,
       ("search", searchTerm) ∈ requestPairs [] searchTerm searchable
       ↔ searchable = true ∧ searchTerm ≠ "")
  ∧ (∀ text,
       Forall (λ c, formSafe c = true)
              (list_ascii_of_string (URLSearchParams.encode text)))
  ∧ buildUrl "http://x/y" [("a", PNum 1)] "foo" true = "http://x/y?search=foo&a=1"
  ∧ buildUrl "http://x/y?z=1" [] "" false = "http://x/y?z=1"
  ∧ buildUrl "http://x/y" [] "a b&c" true = "http://x/y?search=a+b%26c".
Proof.
  split; [|split; [|split; [apply encode_safe|by repeat split]]].
  - intros baseUrl params searchTerm searchable.
    unfold buildUrl. rewrite forEach_append.
    change (_ ++ _)%list with (requestPairs params searchTerm searchable).
    destruct (requestPairs params searchTerm searchable) as [|pair pairs] eqn:Hpairs.
    + reflexivity.
    + destruct (String.eqb _ "") eqn:Hempty; [|reflexivity].
      apply String.eqb_eq, toString_empty_iff in Hempty. discriminate.
  - intros searchTerm searchable. unfold requestPairs. simpl.
    rewrite app_nil_r.
    destruct searchable; simpl.
    + destruct (String.eqb searchTerm "") eqn:Hempty; simpl.
      * apply String.eqb_eq in Hempty. split; [by intros ?%elem_of_nil|].
        by intros [_ ?].
      * apply String.eqb_neq in Hempty. split; [done|].
        intros _. apply list_elem_of_singleton. done.
    + split; [by intros ?%elem_of_nil|]. by intros [? _].
Qed.

(** ** Query keys *)

Section QueryKeys.

Lemma keyOfUrl_equals (url1 url2 : Url) :
  keyElemEquals (keyOfUrl url1) (keyOfUrl url2) = true ↔ url1 = url2.
Proof.
  destruct url1, url2; simpl; rewrite ?bool_decide_eq_true;
    split; congruence.
Qed.

(** Two parameter objects are deeply equal when every name has the same
    entry in both. *)
Lemma paramObject_equals (p q : QueryParams) :
  keyElemEquals (KObject p) (KObject q) = true
  ↔ ∀ name, paramMap p !! name = paramMap q !! name.
Proof.
  simpl. rewrite bool_decide_eq_true. split.
  - by intros ->.
  - apply map_eq.
Qed.

(** The entry of a name is the first one listed under it. *)
Lemma paramMap_lookup_cons (name key : string) (v : ParamValue) (entries : QueryParams) :
  paramMap ((key, v) :: entries) !! name
  = if decide (key = name) then Some v else paramMap entries !! name.
Proof.
  unfold paramMap. simpl. rewrite lookup_insert. by destruct (decide _).
Qed.

End QueryKeys.

(** C1. Two configurations have structurally equal query keys exactly
    when they agree on the URL, on every entry of [queryParams], on the
    [searchable] flag and, when searching is on, on the search text: a
    change of any one of these gives a different key, and equal components
    give equal keys. *)
Theorem C1_queryKey_sensitivity (props1 props2 : Props) (state1 state2 : State) :
  queryKeyEquals (baseQueryKey props1 state1) (baseQueryKey props2 state2) = true
  ↔ url props1 = url props2
    ∧ (∀ name,
         paramMap (queryParams props1) !! name = paramMap (queryParams props2) !! name)
    ∧ searchable props1 = searchable props2
    ∧ (searchable props1 = true → inputValue state1 = inputValue state2).
Proof.
  unfold baseQueryKey.
  destruct (searchable props1), (searchable props2);
    cbn [app queryKeyEquals];
    rewrite ?andb_true_iff, ?andb_false_r, ?andb_true_r,
      ?keyOfUrl_equals, ?paramObject_equals;
    cbn [keyElemEquals]; rewrite ?bool_decide_eq_true;
    intuition (auto; congruence).
Qed.

(** ** The selection resolver *)

Section SelectionResolver.

Variable valueField : PathOrFunction.

Lemma matchesScalar_true (val option : JsValue) :
  matchesScalar valueField val option = Ok true ↔ matchesValue valueField val option.
Proof.
  unfold matchesScalar, matchesValue.
  rewrite getValueFromPath_extracted. simpl.
  split.
  - intros [= H]. by apply String.eqb_eq.
  - intros H. f_equal. by apply String.eqb_eq.
Qed.

Lemma matchesScalar_false (val option : JsValue) :
  matchesScalar valueField val option = Ok false ↔ ¬ matchesValue valueField val option.
Proof.
  unfold matchesScalar, matchesValue.
  rewrite getValueFromPath_extracted. simpl.
  split.
  - intros [= H]. by apply String.eqb_neq.
  - intros H. f_equal. by apply String.eqb_neq.
Qed.

Lemma arrayFind_first (pred : JsValue → outcome bool) (pre post : list JsValue)
    (found : JsValue) :
  (∀ x, x ∈ pre → pred x = Ok false) →
  pred found = Ok true →
  arrayFind pred (pre ++ found :: post) = Ok found.
Proof.
  intros Hpre Hfound. induction pre as [|x pre IH]; simpl.
  - by rewrite Hfound.
  - rewrite (Hpre x) by left. simpl. apply IH.
    intros y Hy. apply Hpre. by right.
Qed.

Lemma arrayFind_none (pred : JsValue → outcome bool) (xs : list JsValue) :
  (∀ x, x ∈ xs → pred x = Ok false) →
  arrayFind pred xs = Ok VUndefined.
Proof.
  intros Hxs. induction xs as [|x xs IH]; simpl; [done|].
  rewrite (Hxs x) by left. simpl. apply IH.
  intros y Hy. apply Hxs. by right.
Qed.

(** The scalar branch is entered for every truthy string or number. *)
Lemma findOptionByValue_scalar (options : list JsValue) (val : JsValue) :
  isScalar val = true → toBoolean val = true →
  findOptionByValue (VArr options) valueField val =
  (let* found := arrayFind (matchesScalar valueField val) options in
   Ok (nullishCoalesce found VNull)).
Proof.
  intros Hscalar Htruthy. unfold findOptionByValue. rewrite Htruthy.
  by destruct val.
Qed.

(** The falsy check comes first: no falsy value reaches a lookup. *)
Lemma findOptionByValue_falsy (options val : JsValue) :
  toBoolean val = false → findOptionByValue options valueField val = Ok VNull.
Proof. intros Hfalsy. unfold findOptionByValue. by rewrite Hfalsy. Qed.

(** The two list branches, on a list that starts with a string and on one
    that starts with a number: the first looks for the stringified
    extracted value among the ids, the second for the extracted value as
    it is. *)
Lemma findOptionByValue_string_list (options ids : list JsValue) :
  typeof (arrayFirst ids) = TString →
  findOptionByValue (VArr options) valueField (VArr ids) =
  Ok (VArr (List.filter
              (λ option, arrayIncludes ids (VStr (ToString (extracted option valueField))))
              options)).
Proof.
  intros Hfirst. unfold findOptionByValue. simpl. rewrite Hfirst. simpl.
  assert (Hcb : ∀ xs,
    arrayFilter (λ option,
      let* extracted := getValueFromPath option valueField in
      Ok (arrayIncludes ids (VStr (ToString extracted)))) xs =
    Ok (List.filter
          (λ option, arrayIncludes ids (VStr (ToString (extracted option valueField)))) xs)).
  { induction xs as [|x xs IH]; simpl; [done|].
    rewrite getValueFromPath_extracted. simpl. rewrite IH. simpl.
    by destruct (arrayIncludes _ _). }
  by rewrite Hcb.
Qed.

Lemma findOptionByValue_number_list (options ids : list JsValue) :
  typeof (arrayFirst ids) = TNumber →
  findOptionByValue (VArr options) valueField (VArr ids) =
  Ok (VArr (List.filter
              (λ option, arrayIncludes ids (extracted option valueField))
              options)).
Proof.
  intros Hfirst. unfold findOptionByValue. simpl. rewrite Hfirst. simpl.
  assert (Hcb : ∀ xs,
    arrayFilter (λ option,
      let* extracted := getValueFromPath option valueField in
      Ok (arrayIncludes ids extracted)) xs =
    Ok (List.filter (λ option, arrayIncludes ids (extracted option valueField)) xs)).
  { induction xs as [|x xs IH]; simpl; [done|].
    rewrite getValueFromPath_extracted. simpl. rewrite IH. simpl.
    by destruct (arrayIncludes _ _). }
  by rewrite Hcb.
Qed.

Lemma filter_reflect (P : JsValue → Prop) `{∀ x, Decision (P x)}
    (keep : JsValue → bool) (xs : list JsValue) :
  (∀ x, x ∈ xs → keep x = true ↔ P x) →
  List.filter keep xs = filter P xs.
Proof.
  induction xs as [|x xs IH]; intros Hkeep; [done|].
  simpl. rewrite filter_cons, IH.
  - destruct (decide (P x)) as [Hx|Hx].
    + apply Hkeep in Hx; [|by left]. by rewrite Hx.
    + destruct (keep x) eqn:Hk; [|done].
      apply Hkeep in Hk; [done|by left].
  - intros y Hy. apply Hkeep. by right.
Qed.

Lemma arrayIncludes_string (ids : list JsValue) (s : string) :
  Forall (λ id, typeof id = TString) ids →
  arrayIncludes ids (VStr s) = true ↔ s ∈ List.map ToString ids.
Proof.
  unfold arrayIncludes.
  induction 1 as [|id ids Hid _ IH]; simpl.
  - split; [done|by intros ?%elem_of_nil].
  - rewrite orb_true_iff, elem_of_cons, IH.
    destruct id; try discriminate. simpl.
    rewrite String.eqb_eq. intuition congruence.
Qed.

Lemma arrayIncludes_number (ids : list JsValue) (x : JsValue) :
  Forall (λ id, typeof id = TNumber) ids →
  typeof x = TNumber →
  arrayIncludes ids x = true ↔ ToString x ∈ List.map ToString ids.
Proof.
  unfold arrayIncludes. intros Hids Hx.
  destruct x as [| | |n| | |]; try discriminate. clear Hx.
  induction Hids as [|id ids Hid _ IH]; simpl.
  - split; [done|by intros ?%elem_of_nil].
  - rewrite orb_true_iff, elem_of_cons, IH.
    destruct id as [| | |m| | |]; try discriminate. simpl.
    rewrite Z.eqb_eq. split.
    + intros [-> | ?]; auto.
    + intros [Heq | ?]; auto. left. symmetry. by apply (inj pretty).
Qed.

(** Where the list branches do agree with a comparison of stringified
    values: on a list of strings, and on a list of numbers when the value
    field of every option is a number. *)
Lemma findOptionByValue_string_ids (options ids : list JsValue) :
  ids ≠ [] →
  Forall (λ id, typeof id = TString) ids →
  findOptionByValue (VArr options) valueField (VArr ids)
  = Ok (VArr (filter (memberOfIds valueField ids) options)).
Proof.
  intros Hne Hids.
  rewrite findOptionByValue_string_list.
  - do 2 f_equal. apply filter_reflect. intros option _.
    by apply arrayIncludes_string.
  - destruct Hids; [done|]. done.
Qed.

Lemma findOptionByValue_number_ids (options ids : list JsValue) :
  ids ≠ [] →
  Forall (λ id, typeof id = TNumber) ids →
  Forall (λ option, typeof (extracted option valueField) = TNumber) options →
  findOptionByValue (VArr options) valueField (VArr ids)
  = Ok (VArr (filter (memberOfIds valueField ids) options)).
Proof.
  intros Hne Hids Hoptions.
  rewrite findOptionByValue_number_list.
  - do 2 f_equal. apply filter_reflect. intros option Hoption.
    apply arrayIncludes_number; [done|].
    by apply (proj1 (Forall_forall _ _) Hoptions).
  - destruct Hids; [done|]. done.
Qed.

End SelectionResolver.

(** C2. For a string that is not empty or a number that is not zero, and
    a list of options, [findOptionByValue] returns the first option whose
    value field, extracted and stringified, equals the stringified value
    (the option being an item, not [undefined]), and [null] when no option
    matches; [null] and [undefined] resolve to [null] whatever the options
    are. *)
Theorem C2_findOptionByValue_scalar :
  (∀ (options : list JsValue) valueField val,
     isScalar val = true → toBoolean val = true →
     (∀ pre found post,
        options = (pre ++ found :: post)%list →
        (∀ x, x ∈ pre → ¬ matchesValue valueField val x) →
        matchesValue valueField val found →
        found ≠ VUndefined →
        findOptionByValue (VArr options) valueField val = Ok found)
     ∧ ((∀ x, x ∈ options → ¬ matchesValue valueField val x) →
        findOptionByValue (VArr options) valueField val = Ok VNull))
  ∧ (∀ options valueField,
       findOptionByValue options valueField VNull = Ok VNull
       ∧ findOptionByValue options valueField VUndefined = Ok VNull).
Proof.
  split; [|by intros; split; apply findOptionByValue_falsy].
  intros options valueField val Hscalar Htruthy.
  rewrite findOptionByValue_scalar by done. split.
  - intros pre found post -> Hpre Hfound Hitem.
    rewrite arrayFind_first; simpl.
    + by destruct found.
    + intros x Hx. by apply matchesScalar_false, Hpre.
    + by apply matchesScalar_true.
  - intros Hnone. rewrite arrayFind_none; [done|].
    intros x Hx. by apply matchesScalar_false, Hnone.
Qed.

(** The value [2] against [{id:1,name:"a"}, {id:2,name:"b"}] resolves to
    the second option; the value [3] resolves to [null]. *)
Lemma C2_findOptionByValue_scalar_witness :
  findOptionByValue (VArr [optionA; optionB]) (Path "id") (VNum 2) = Ok optionB
  ∧ findOptionByValue (VArr [optionA; optionB]) (Path "id") (VNum 3) = Ok VNull.
Proof.
  split.
  - apply (proj1 (proj1 C2_findOptionByValue_scalar
                    [optionA; optionB] (Path "id") (VNum 2) eq_refl eq_refl)
             [optionA] optionB []).
    + reflexivity.
    + intros x Hx. apply list_elem_of_singleton in Hx. subst x.
      unfold matchesValue. vm_compute. discriminate.
    + reflexivity.
    + discriminate.
  - apply (proj2 (proj1 C2_findOptionByValue_scalar
                    [optionA; optionB] (Path "id") (VNum 3) eq_refl eq_refl)).
    intros x Hx. unfold matchesValue.
    apply list_elem_of_In in Hx. simpl in Hx.
    destruct Hx as [<-|[<-|[]]]; vm_compute; discriminate.
Defined.

(** The value [0] against an option whose id is [0]: the option matches,
    and the resolver answers [null]. *)
Lemma C2_zero_value_counterexample :
  isScalar (VNum 0) = true
  ∧ matchesValue (Path "id") (VNum 0) optionZero
  ∧ findOptionByValue (VArr [optionZero]) (Path "id") (VNum 0) = Ok VNull
  ∧ findOptionByValue (VArr [optionZero]) (Path "id") (VNum 0) ≠ Ok optionZero.
Proof. repeat split. discriminate. Qed.

(** C9. The number [0] and the empty string resolve to [null] whatever
    the options are, also when an option matches: the check [!val] comes
    before the lookup. *)
Theorem C9_findOptionByValue_falsy_scalar (options : JsValue)
    (valueField : PathOrFunction) (val : JsValue) :
  val = VNum 0 ∨ val = VStr "" →
  findOptionByValue options valueField val = Ok VNull.
Proof. intros [-> | ->]; by apply findOptionByValue_falsy. Qed.

(** Options that hold an item with id [0] and one with id [""]: both
    match their value, and both values resolve to [null]. *)
Lemma C9_findOptionByValue_falsy_scalar_witness :
  (matchesValue (Path "id") (VNum 0) optionZero
   ∧ findOptionByValue (VArr [optionZero; optionEmpty]) (Path "id") (VNum 0) = Ok VNull)
  ∧ (matchesValue (Path "id") (VStr "") optionEmpty
     ∧ findOptionByValue (VArr [optionZero; optionEmpty]) (Path "id") (VStr "") = Ok VNull).
Proof.
  split; (split; [reflexivity|]).
  - apply C9_findOptionByValue_falsy_scalar. by left.
  - apply C9_findOptionByValue_falsy_scalar. by right.
Defined.

(** C3. On the id list [[1]] and the option [{id:"1",name:"a"}] the
    stringified id of the option is a member of the stringified id list,
    and the resolver returns no option: the branch for number lists looks
    the extracted value up as it is. The branch for string lists, the
    scalar branch and [isOptionEqualToValue] all stringify, and accept the
    same option. *)
Theorem C3_findOptionByValue_number_list_not_stringified :
  memberOfIds (Path "id") [VNum 1] optionStringId
  ∧ findOptionByValue (VArr [optionStringId]) (Path "id") (VArr [VNum 1]) = Ok (VArr [])
  ∧ findOptionByValue (VArr [optionStringId]) (Path "id") (VArr [VStr "1"])
    = Ok (VArr [optionStringId])
  ∧ findOptionByValue (VArr [optionStringId]) (Path "id") (VNum 1) = Ok optionStringId
  ∧ isOptionEqualToValue (Path "id") (VArr [VNum 1]) optionStringId = Ok true.
Proof.
  split; [|by repeat split].
  apply list_elem_of_singleton. reflexivity.
Qed.

(** ** Deriving the options *)

Lemma arrayFlatMap_returns (f : JsValue → outcome JsValue) (xs : list JsValue) :
  (∀ x, returns (f x)) → returns (arrayFlatMap f xs).
Proof.
  intros Hf. induction xs as [|x xs IH]; simpl; auto.
  destruct (Hf x) as [y ->], IH as [ys ->]. simpl. auto.
Qed.

(** Deriving the options never throws. *)
Lemma options_returns (props : Props) (regularQuery : RegularQuery)
    (infiniteQuery : InfiniteQuery) :
  returns (options props regularQuery infiniteQuery).
Proof.
  unfold options.
  assert (Hregular : returns
    (if toBoolean (regularData regularQuery)
     then match truthyPath (optionsPath props) with
          | Some pathOrFn => getValueFromPath (regularData regularQuery) pathOrFn
          | None => Ok (regularData regularQuery)
          end
     else Ok (VArr []))).
  { destruct (toBoolean _); auto.
    destruct (truthyPath _); auto using getValueFromPath_returns. }
  destruct (infinite props); [|done].
  destruct (infiniteData infiniteQuery) as [pages|]; [|done].
  apply returns_obind; auto.
  apply arrayFlatMap_returns. intros page.
  destruct (truthyPath _); auto using getValueFromPath_returns.
Qed.

(** A settled single-page body that the path does not traverse: the
    options are what the path resolver answered, [undefined]. *)
Lemma options_unresolved_path (props : Props) (body : JsValue)
    (infiniteQuery : InfiniteQuery) (path : string) :
  infinite props = false →
  optionsPath props = Some (Path path) →
  path ≠ "" →
  toBoolean body = true →
  getValueFromPath body (Path path) = Ok VUndefined →
  options props {| regularData := body |} infiniteQuery = Ok VUndefined.
Proof.
  intros Hmode Hpath Hnonempty Htruthy Hmiss. unfold options.
  rewrite Hmode, Hpath. simpl. rewrite Htruthy.
  destruct path; [done|]. exact Hmiss.
Qed.

(** C4. On the settled body [{data:[...]}] and the options path
    ["results"], which resolves to no value, the derivation returns
    without throwing, and what it returns is [undefined] in single-page
    mode and a list holding [undefined] once per page in paginated mode,
    not the empty list; the selection resolver then throws on such
    options. With no settled body the same derivation answers the empty
    list. *)
Theorem C4_options_unresolved_path_not_empty :
  getValueFromPath wrappedBody (Path "results") = Ok VUndefined
  ∧ options (configure usersUrl (Some (Path "results")) false)
      {| regularData := wrappedBody |} idleQuery = Ok VUndefined
  ∧ options (configure usersUrl (Some (Path "results")) true)
      {| regularData := VUndefined |}
      {| infiniteData := Some [wrappedBody; wrappedBody];
         hasNextPage := false; isFetchingNextPage := false |}
    = Ok (VArr [VUndefined; VUndefined])
  ∧ findOptionByValue VUndefined (Path "id") (VNum 1)
    = Throw (TypeError "Cannot read properties of undefined")
  ∧ options (configure usersUrl (Some (Path "results")) false)
      {| regularData := VUndefined |} idleQuery = Ok (VArr []).
Proof. by repeat split. Qed.

(** ** Handlers *)

(** C7. In paginated mode a scroll event fetches the next page exactly
    when the list is within 50 units of its scrollable end, a next page
    exists and no page fetch is in flight; it then fetches once, and it
    fetches nothing when there is no next page or a page fetch is in
    flight. *)
Theorem C7_handleScroll_gated (props : Props) (infiniteQuery : InfiniteQuery)
    (listbox : ListGeometry) :
  infinite props = true →
  (handleScroll props infiniteQuery listbox = [FetchNextPage]
   ↔ distanceToEnd listbox ≤ 50
     ∧ hasNextPage infiniteQuery = true
     ∧ isFetchingNextPage infiniteQuery = false)
  ∧ (FetchNextPage ∉ handleScroll props infiniteQuery listbox
     ↔ handleScroll props infiniteQuery listbox = [])
  ∧ (hasNextPage infiniteQuery = false ∨ isFetchingNextPage infiniteQuery = true →
     handleScroll props infiniteQuery listbox = []).
Proof.
  intros Hmode. unfold handleScroll, distanceToEnd. rewrite Hmode. simpl.
  destruct (Z.leb_spec (scrollHeight listbox - 50)
              (scrollTop listbox + clientHeight listbox)) as [Hnear|Hfar];
    destruct (hasNextPage infiniteQuery), (isFetchingNextPage infiniteQuery);
    simpl.
  all: split; [split; [intros Hfetch | intros (Hdist & Hnext & Hidle)] | split;
    [split; [intros Hnot | intros Hnil] | intros [Hnext | Hbusy]]].
  all: try done; try lia.
  all: try (exfalso; apply Hnot; by left).
  all: try (by intros ?%elem_of_nil).
Qed.

(** Forty units above the end, with a next page and nothing in flight. *)
Lemma C7_handleScroll_gated_witness :
  handleScroll paginatedProps pagingQuery nearEnd = [FetchNextPage].
Proof.
  apply (proj1 (C7_handleScroll_gated paginatedProps pagingQuery nearEnd eq_refl)).
  unfold distanceToEnd. simpl. repeat split. lia.
Defined.

Lemma arrayMap_extracted (valueField : PathOrFunction) (items : list JsValue) :
  arrayMap (λ item, getValueFromPath item valueField) items
  = Ok (List.map (λ item, extracted item valueField) items).
Proof.
  induction items as [|item items IH]; simpl; [done|].
  by rewrite getValueFromPath_extracted, IH.
Qed.

(** What [handleChange] does: nothing, or one call of [onChange] with the
    extracted value(s) and the option itself. *)
Lemma handleChange_effects (props : Props) (option : JsValue) :
  handleChange props option = Ok []
  ∨ ∃ callback reported,
      handleChange props option = Ok [Invoke callback [reported; option]]
      ∧ onChange props = Some callback
      ∧ toBoolean option = true.
Proof.
  unfold handleChange.
  destruct (toBoolean option) eqn:Htruthy; [|by left].
  destruct (onChange props) as [callback|]; [|by left].
  right. exists callback.
  destruct option; try discriminate;
    rewrite ?arrayMap_extracted, ?getValueFromPath_extracted; simpl; eauto.
Qed.

(** An empty list is an option list like any other: it is reported. *)
Lemma handleChange_empty_list (props : Props) (callback : Callback) :
  onChange props = Some callback →
  handleChange props (VArr []) = Ok [Invoke callback [VArr []; VArr []]].
Proof. intros Hcb. unfold handleChange. by rewrite Hcb. Qed.

(** C10. A change event whose option is [null], as when a single
    selection is cleared, calls nothing, and so does every change event
    when no [onChange] is configured; a call that [handleChange] makes is a
    call of the configured [onChange], with the option as second argument,
    and that option is truthy, hence not [null]. Clearing a multiple
    selection is no such event: its option is the empty list, and the
    configured [onChange] is called once, with the empty list of values and
    the empty list of options. *)
Theorem C10_handleChange_null_option (props : Props) :
  handleChange props VNull = Ok []
  ∧ (∀ option, onChange props = None → handleChange props option = Ok [])
  ∧ (∀ option effects callback args,
       handleChange props option = Ok effects →
       Invoke callback args ∈ effects →
       onChange props = Some callback
       ∧ toBoolean option = true
       ∧ option ≠ VNull
       ∧ ∃ reported, args = [reported; option])
  ∧ (∀ callback,
       onChange props = Some callback →
       handleChange props (VArr []) = Ok [Invoke callback [VArr []; VArr []]]).
Proof.
  split; [done|]. split; [|split].
  - intros option Hnone. unfold handleChange. rewrite Hnone.
    by destruct (toBoolean option).
  - intros option effects callback args Hrun Hcall.
    destruct (handleChange_effects props option)
      as [Hnothing | (cb & reported & Hone & Hcb & Htruthy)].
    + rewrite Hnothing in Hrun. injection Hrun as <-.
      by apply elem_of_nil in Hcall.
    + rewrite Hone in Hrun. injection Hrun as <-.
      apply list_elem_of_singleton in Hcall. injection Hcall as -> ->.
      repeat split; [done..| |by exists reported].
      intros ->. discriminate.
  - apply handleChange_empty_list.
Qed.

(** Choosing [{id:1,name:"a"}]: the one call reports the id and the
    option. *)
Lemma C10_handleChange_null_option_witness :
  onChange exampleProps = Some (CallbackRef 0)
  ∧ toBoolean optionA = true
  ∧ optionA ≠ VNull
  ∧ ∃ reported, [VNum 1; optionA] = [reported; optionA].
Proof.
  apply (proj1 (proj2 (proj2 (C10_handleChange_null_option exampleProps)))
           optionA [Invoke (CallbackRef 0) [VNum 1; optionA]]
           (CallbackRef 0) [VNum 1; optionA]).
  - reflexivity.
  - apply list_elem_of_singleton. reflexivity.
Defined.

(** Clearing a multiple selection: the option is the empty list, and
    [onChange([], [])] is called. *)
Lemma C10_cleared_list_counterexample :
  clearedSelection (VArr []) = true
  ∧ onChange exampleProps = Some (CallbackRef 0)
  ∧ handleChange exampleProps (VArr []) ≠ Ok []
  ∧ handleChange exampleProps (VArr [])
    = Ok [Invoke (CallbackRef 0) [VArr []; VArr []]].
Proof. repeat split. discriminate. Qed.

(** ** Focus gating *)

Section FocusGating.

Variable props : Props.

Lemma fold_applyEffect_focused (effects : list Effect) :
  ∀ state,
    focusedInput (fold_left applyEffect effects state)
    = fold_left (λ focused effect,
                   match effect with
                   | SetFocusedInput b => b
                   | _ => focused
                   end) effects (focusedInput state).
Proof.
  induction effects as [|effect effects IH]; intros state; simpl; [done|].
  rewrite IH. by destruct effect.
Qed.

(** An event leaves the focus flag as it is, except a focus, which sets
    it. *)
Lemma step_focusedInput (state : State) (occurrence : InfiniteQuery * Event) :
  focusedInput (step props state occurrence)
  = focusedInput state || isFocus occurrence.2.
Proof.
  destruct occurrence as [infiniteQuery event]. unfold step. simpl.
  destruct event as [e| |newValue|option|listbox]; simpl.
  - rewrite fold_applyEffect_focused. unfold handleFocus.
    rewrite fold_left_app. simpl. by rewrite orb_true_r.
  - by rewrite orb_false_r.
  - by rewrite orb_false_r.
  - rewrite orb_false_r.
    destruct (handleChange_effects props option)
      as [-> | (cb & reported & -> & _ & _)]; done.
  - rewrite orb_false_r. unfold handleScroll.
    by destruct (_ && _).
Qed.

Lemma run_focusedInput (events : list (InfiniteQuery * Event)) :
  ∀ state,
    focusedInput (run props state events)
    = focusedInput state || existsb (λ occurrence, isFocus occurrence.2) events.
Proof.
  unfold run.
  induction events as [|occurrence events IH]; intros state; simpl.
  - by rewrite orb_false_r.
  - by rewrite IH, step_focusedInput, orb_assoc.
Qed.

End FocusGating.

(** C8. Before the first focus event neither query is enabled. From the
    first focus event on, whatever follows, the focus flag is set and the
    queries are enabled as the configuration alone decides: the
    single-page query when [infinite] is false and the URL is a string, the
    paginated query when [infinite] is true. No event clears the flag. *)
Theorem C8_focus_gating (props : Props) (events : list (InfiniteQuery * Event)) :
  (existsb (λ occurrence, isFocus occurrence.2) events = false →
   focusedInput (run props initialState events) = false
   ∧ regularEnabled props (run props initialState events) = false
   ∧ infiniteEnabled props (run props initialState events) = false)
  ∧ (existsb (λ occurrence, isFocus occurrence.2) events = true →
     ∀ later,
       let state := run props initialState (events ++ later) in
       focusedInput state = true
       ∧ regularEnabled props state = negb (infinite props) && isUrlString (url props)
       ∧ infiniteEnabled props state = infinite props)
  ∧ (∀ state later,
       focusedInput state = true →
       focusedInput (run props state later) = true).
Proof.
  unfold regularEnabled, infiniteEnabled. split; [|split].
  - intros Hnone. rewrite run_focusedInput, Hnone. by repeat split.
  - intros Hsome later. simpl.
    rewrite run_focusedInput, existsb_app, Hsome. by repeat split.
  - intros state later Hfocused. by rewrite run_focusedInput, Hfocused.
Qed.

(** Focus, typing, then a blur and a scroll: the single-page query of the
    example configuration is enabled at the end and the paginated one is
    not. *)
Lemma C8_focus_gating_witness :
  let events := [(idleQuery, Focus VNull); (idleQuery, InputChange "ab")] in
  let later := [(idleQuery, Blur); (idleQuery, Scroll nearEnd)] in
  let state := run exampleProps initialState (events ++ later) in
  focusedInput state = true
  ∧ regularEnabled exampleProps state = true
  ∧ infiniteEnabled exampleProps state = false.
Proof.
  intros events later.
  apply (proj1 (proj2 (C8_focus_gating exampleProps events)) eq_refl later).
Defined.

(** A function URL with [infinite] false: after the focus event no query
    is enabled. *)
Lemma C8_function_url_counterexample :
  ¬ focusGatingAsStated functionUrlProps [(idleQuery, Focus VNull)].
Proof. unfold focusGatingAsStated. vm_compute. discriminate. Qed.

(** * Further properties of the code *)

(** ** The URL builder, continued *)

Section UrlBuilderMore.

Import URLSearchParams.

#[local] Arguments Ascii.eqb : simpl never.

Lemma buildUrl_pairs (baseUrl : string) (params : QueryParams)
    (searchTerm : string) (searchable : bool) :
  buildUrl baseUrl params searchTerm searchable =
  match requestPairs params searchTerm searchable with
  | [] => baseUrl
  | pairs =>
      baseUrl +:+ (if strIncludes "?" baseUrl then "&" else "?")
      +:+ strJoin "&" (List.map encodePair pairs)
  end.
Proof.
  unfold buildUrl. rewrite forEach_append.
  change (_ ++ _)%list with (requestPairs params searchTerm searchable).
  destruct (requestPairs params searchTerm searchable) as [|pair pairs] eqn:Hpairs.
  - reflexivity.
  - destruct (String.eqb _ "") eqn:Hempty; [|reflexivity].
    apply String.eqb_eq, toString_empty_iff in Hempty. discriminate.
Qed.

Lemma requestPairs_nil (params : QueryParams) (searchTerm : string) (searchable : bool) :
  requestPairs params searchTerm searchable = []
  ↔ params = [] ∧ (searchable = false ∨ searchTerm = "").
Proof.
  unfold requestPairs.
  destruct searchable; simpl.
  - destruct (String.eqb_spec searchTerm ""); simpl.
    + destruct params; simpl; split; try done; [by intros; split; auto|by intros [? _]].
    + split; [done|]. intros [_ [?|?]]; done.
  - destruct params; simpl; split; try done; [by intros; split; auto|by intros [? _]].
Qed.

Lemma length_append (a b : string) :
  String.length (a +:+ b) = (String.length a + String.length b)%nat.
Proof. induction a as [|c a IH]; simpl; [done|]. by rewrite IH. Qed.

Lemma append_eq_self (a b : string) : a +:+ b = a → b = "".
Proof.
  intros H. apply (f_equal String.length) in H. rewrite length_append in H.
  destruct b; [done|]. simpl in H. lia.
Qed.

Lemma strCount_app (c : ascii) (a b : string) :
  strCount c (a +:+ b) = (strCount c a + strCount c b)%nat.
Proof. induction a as [|d a IH]; simpl; [done|]. rewrite IH. lia. Qed.

Lemma strIncludes_count (c : ascii) (s : string) :
  strIncludes c s = negb (strCount c s =? 0)%nat.
Proof.
  induction s as [|d s IH]; simpl; [done|].
  destruct (Ascii.eqb d c); simpl; [done|]. exact IH.
Qed.

(** A character that the form encoding never produces does not occur in
    an encoded text. *)
Lemma strCount_encode (c : ascii) (s : string) :
  formSafe c = false → strCount c (encode s) = 0%nat.
Proof.
  intros Hc. pose proof (encode_safe s) as Hsafe.
  induction (encode s) as [|d e IH]; simpl; [done|].
  inversion Hsafe as [|? ? Hd Hrest]; subst.
  rewrite IH by done.
  destruct (Ascii.eqb_spec d c) as [->|]; [congruence|done].
Qed.

Lemma strCount_encodePair (c : ascii) (pair : string * string) :
  formSafe c = false → c ≠ "="%char → strCount c (encodePair pair) = 0%nat.
Proof.
  intros Hc Heq. unfold encodePair.
  rewrite !strCount_app, !strCount_encode by done. simpl.
  by destruct (Ascii.eqb_spec "=" c) as [<-|].
Qed.

Lemma strJoin_cons_cons (sep x y : string) (rest : list string) :
  strJoin sep (x :: y :: rest) = x +:+ sep +:+ strJoin sep (y :: rest).
Proof. reflexivity. Qed.

Lemma strCount_query (c : ascii) (pairs : list (string * string)) :
  formSafe c = false → c ≠ "="%char → c ≠ "&"%char →
  strCount c (strJoin "&" (List.map encodePair pairs)) = 0%nat.
Proof.
  intros Hc Heq Hamp.
  induction pairs as [|pair pairs IH]; [done|].
  destruct pairs as [|pair' pairs].
  - by apply strCount_encodePair.
  - cbn [List.map] in *. rewrite strJoin_cons_cons, !strCount_app, IH.
    rewrite strCount_encodePair by done. simpl.
    by destruct (Ascii.eqb_spec "&" c) as [<-|].
Qed.

(** The pairs of a query string are separated by one [&] each. *)
Lemma strCount_amp_query (pairs : list (string * string)) :
  strCount "&" (strJoin "&" (List.map encodePair pairs)) = pred (length pairs).
Proof.
  induction pairs as [|pair pairs IH]; [done|].
  destruct pairs as [|pair' pairs].
  - by apply strCount_encodePair.
  - cbn [List.map] in *. rewrite strJoin_cons_cons, !strCount_app, IH.
    by rewrite strCount_encodePair.
Qed.

Lemma formDecode_encodeByte (c : ascii) (rest : string) :
  formDecode (encodeByte c +:+ rest) = String c (formDecode rest).
Proof.
  destruct c as [[] [] [] [] [] [] [] []]; reflexivity.
Qed.

Lemma append_cons (d : ascii) (a b : string) :
  String d a +:+ b = String d (a +:+ b).
Proof. reflexivity. Qed.

Lemma append_assoc (a b c : string) : (a +:+ b) +:+ c = a +:+ (b +:+ c).
Proof.
  induction a as [|d a IH]; [done|]. by rewrite !append_cons, IH.
Qed.

Lemma formDecode_encode_app (s : string) :
  ∀ rest, formDecode (encode s +:+ rest) = s +:+ formDecode rest.
Proof.
  induction s as [|c s IH]; intros rest; [done|].
  cbn [encode]. by rewrite append_assoc, formDecode_encodeByte, IH.
Qed.

Lemma append_empty_r (a : string) : a +:+ "" = a.
Proof. induction a as [|c a IH]; [done|]. by rewrite append_cons, IH. Qed.

Lemma formDecode_encode (s : string) : formDecode (encode s) = s.
Proof.
  rewrite <- (append_empty_r (encode s)).
  rewrite (formDecode_encode_app s ""). apply append_empty_r.
Qed.

Lemma encode_inj (s t : string) : encode s = encode t → s = t.
Proof.
  intros H. apply (f_equal formDecode) in H. by rewrite !formDecode_encode in H.
Qed.

Lemma append_inj_r (a b c : string) : a +:+ c = b +:+ c → a = b.
Proof.
  revert b. induction a as [|x a IH]; intros [|y b] H.
  - done.
  - apply (f_equal String.length) in H.
    rewrite !length_append in H. simpl in H. lia.
  - apply (f_equal String.length) in H.
    rewrite !length_append in H. simpl in H. lia.
  - rewrite !append_cons in H. injection H as -> H. f_equal. by apply IH.
Qed.

End UrlBuilderMore.

Section UrlBuilderProperties.

Import URLSearchParams.

Lemma append_inj_l (a b c : string) : a +:+ b = a +:+ c → b = c.
Proof.
  induction a as [|x a IH]; [done|].
  rewrite !append_cons. intros [= H]. by apply IH.
Qed.

Lemma joiner_nonempty (baseUrl query : string) :
  (if strIncludes "?" baseUrl then "&" else "?") +:+ query ≠ "".
Proof. by destruct (strIncludes "?" baseUrl). Qed.

(** X2. The base URL is kept as it is, in front: [buildUrl] only ever
    appends to it, and it returns the base unchanged exactly when there is
    no parameter and no active search. *)
Theorem buildUrl_extends_base (baseUrl : string) (params : QueryParams)
    (searchTerm : string) (searchable : bool) :
  (∃ suffix, buildUrl baseUrl params searchTerm searchable = baseUrl +:+ suffix)
  ∧ (buildUrl baseUrl params searchTerm searchable = baseUrl
     ↔ params = [] ∧ (searchable = false ∨ searchTerm = "")).
Proof.
  rewrite buildUrl_pairs, <- requestPairs_nil.
  destruct (requestPairs params searchTerm searchable) as [|pair pairs].
  - split; [|done]. exists "". by rewrite append_empty_r.
  - split; [by eexists|]. split; [|done].
    intros H. apply append_eq_self in H. by apply joiner_nonempty in H.
Qed.

(** X3. [buildUrl] adds at most one question mark: none when the base
    already has one or when nothing is appended, one otherwise. *)
Theorem buildUrl_question_marks (baseUrl : string) (params : QueryParams)
    (searchTerm : string) (searchable : bool) :
  strCount "?" (buildUrl baseUrl params searchTerm searchable)
  = (strCount "?" baseUrl
     + (if strIncludes "?" baseUrl then 0
        else match requestPairs params searchTerm searchable with
             | [] => 0
             | _ => 1
             end))%nat.
Proof.
  rewrite buildUrl_pairs.
  destruct (requestPairs params searchTerm searchable) as [|pair pairs].
  - destruct (strIncludes "?" baseUrl); lia.
  - rewrite !strCount_app, strCount_query by done.
    destruct (strIncludes "?" baseUrl); simpl; lia.
Qed.

Lemma buildUrl_query (baseUrl : string) (params : QueryParams)
    (searchTerm : string) (searchable : bool) :
  requestPairs params searchTerm searchable ≠ [] →
  buildUrl baseUrl params searchTerm searchable
  = baseUrl +:+ (if strIncludes "?" baseUrl then "&" else "?")
    +:+ toString (requestPairs params searchTerm searchable).
Proof.
  intros Hne. rewrite buildUrl_pairs.
  by destruct (requestPairs params searchTerm searchable).
Qed.

Lemma strCount_amp_toString (pairs : list (string * string)) :
  strCount "&" (toString pairs) = pred (length pairs).
Proof. apply strCount_amp_query. Qed.

Lemma toString_head_inj (pair pair' : string * string) (rest : list (string * string)) :
  toString (pair :: rest) = toString (pair' :: rest) → encodePair pair = encodePair pair'.
Proof.
  unfold toString. cbn [List.map].
  destruct (List.map encodePair rest) as [|y ys]; [done|].
  rewrite !strJoin_cons_cons. apply append_inj_r.
Qed.

Lemma encodePair_search_inj (a b : string) :
  encodePair ("search", a) = encodePair ("search", b) → a = b.
Proof.
  unfold encodePair. simpl. intros H.
  apply append_inj_l in H. rewrite !append_cons in H. injection H as H.
  by apply encode_inj.
Qed.

(** With searching on, and base and parameters fixed, two search texts
    that give the same URL are the same text. *)
Lemma buildUrl_search_text (baseUrl : string) (params : QueryParams)
    (searchTerm searchTerm' : string) :
  buildUrl baseUrl params searchTerm true = buildUrl baseUrl params searchTerm' true →
  searchTerm = searchTerm'.
Proof.
  assert (Hactive : ∀ text, text ≠ "" →
    requestPairs params text true = ("search", text) :: requestPairs params "" true).
  { intros text Hne. unfold requestPairs. simpl.
    by destruct (String.eqb_spec text ""). }
  assert (Hmixed : ∀ text, text ≠ "" →
    buildUrl baseUrl params "" true ≠ buildUrl baseUrl params text true).
  { intros text Hne H.
    rewrite (buildUrl_query _ _ text) in H by (by rewrite Hactive).
    rewrite Hactive in H by done.
    destruct (requestPairs params "" true) as [|pair rest] eqn:Hrest.
    - rewrite buildUrl_pairs, Hrest in H. symmetry in H.
      apply append_eq_self in H. by apply joiner_nonempty in H.
    - rewrite buildUrl_query, Hrest in H by (by rewrite Hrest).
      do 2 apply append_inj_l in H.
      apply (f_equal (strCount "&")) in H.
      rewrite !strCount_amp_toString in H. simpl in H. lia. }
  destruct (String.eqb_spec searchTerm "") as [->|Hne],
           (String.eqb_spec searchTerm' "") as [->|Hne']; [done|..].
  - intros H. by apply Hmixed in H.
  - intros H. symmetry in H. by apply Hmixed in H.
  - rewrite (buildUrl_query _ _ searchTerm), (buildUrl_query _ _ searchTerm')
      by (by rewrite Hactive).
    rewrite (Hactive searchTerm), (Hactive searchTerm') by done. intros H.
    do 2 apply append_inj_l in H.
    apply toString_head_inj in H. by apply encodePair_search_inj.
Qed.

(** X4. With searching on, and base and parameters fixed, the URL tells
    the search text: two texts give the same URL exactly when they are the
    same text. *)
Theorem buildUrl_search_inj (baseUrl : string) (params : QueryParams)
    (searchTerm searchTerm' : string) :
  buildUrl baseUrl params searchTerm true = buildUrl baseUrl params searchTerm' true
  ↔ searchTerm = searchTerm'.
Proof. split; [apply buildUrl_search_text|by intros ->]. Qed.

Lemma buildUrl_not_searchable (baseUrl : string) (params : QueryParams)
    (searchTerm searchTerm' : string) :
  buildUrl baseUrl params searchTerm false = buildUrl baseUrl params searchTerm' false.
Proof. by rewrite !buildUrl_pairs. Qed.

End UrlBuilderProperties.

(** ** Query keys and what is fetched under them *)

(** X5. The key of the paginated query never equals the key of a
    single-page query, whatever the two configurations are and whatever
    was typed: the two queries never share a cache entry. *)
Theorem infiniteQueryKey_apart (props1 props2 : Props) (state1 state2 : State) :
  queryKeyEquals (infiniteQueryKey props1 state1) (baseQueryKey props2 state2) = false.
Proof.
  unfold infiniteQueryKey, baseQueryKey.
  destruct (searchable props1), (searchable props2);
    cbn [app queryKeyEquals keyElemEquals];
    by rewrite ?andb_false_r.
Qed.

(** X6. The key does not depend on the order in which [queryParams] lists
    its entries: two configurations with the same URL and flag whose
    parameter objects hold the same entries, under distinct names, have
    equal keys at the same input text. *)
Theorem baseQueryKey_entry_order (props1 props2 : Props) (state : State) :
  url props1 = url props2 →
  searchable props1 = searchable props2 →
  NoDup (queryParams props1).*1 →
  queryParams props1 ≡ₚ queryParams props2 →
  queryKeyEquals (baseQueryKey props1 state) (baseQueryKey props2 state) = true.
Proof.
  intros Hurl Hflag Hnames Hperm. unfold baseQueryKey. rewrite <- Hflag.
  assert (Hobject : keyElemEquals (KObject (queryParams props1))
                      (KObject (queryParams props2)) = true).
  { apply paramObject_equals. intros name. unfold paramMap.
    by rewrite (list_to_map_proper _ _ Hnames Hperm). }
  assert (Hkey : keyElemEquals (keyOfUrl (url props1)) (keyOfUrl (url props2)) = true)
    by by apply keyOfUrl_equals.
  destruct (searchable props1); cbn [app queryKeyEquals];
    rewrite Hobject, Hkey; cbn [keyElemEquals];
    by rewrite ?bool_decide_eq_true_2.
Qed.

(** [{limit:10, sort:"name"}] and [{sort:"name", limit:10}]. *)
Lemma baseQueryKey_entry_order_witness :
  queryKeyEquals (baseQueryKey sortedParams initialState)
                 (baseQueryKey unsortedParams initialState) = true.
Proof.
  apply baseQueryKey_entry_order.
  - reflexivity.
  - reflexivity.
  - simpl. apply NoDup_cons_2; [|apply NoDup_singleton].
    by intros ?%list_elem_of_singleton.
  - simpl. apply Permutation_swap.
Defined.

Lemma baseQueryKey_equals_parts (props1 props2 : Props) (state1 state2 : State) :
  queryKeyEquals (baseQueryKey props1 state1) (baseQueryKey props2 state2) = true →
  url props1 = url props2
  ∧ paramMap (queryParams props1) = paramMap (queryParams props2)
  ∧ searchable props1 = searchable props2
  ∧ (searchable props1 = true → inputValue state1 = inputValue state2).
Proof.
  unfold baseQueryKey.
  destruct (searchable props1), (searchable props2);
    cbn [app queryKeyEquals];
    rewrite ?andb_true_iff, ?andb_false_r, ?andb_true_r, ?keyOfUrl_equals;
    cbn [keyElemEquals]; rewrite ?bool_decide_eq_true;
    intuition (auto; congruence).
Qed.

(** X7. What a query function fetches is decided by the key up to the
    order of the static parameters: two renders with structurally equal
    keys have the same URL prop and request the same pairs, [search]
    included, the static ones possibly in another order; and when the two
    parameter objects list their entries in the same order, the single-page
    query functions (given the same cache answer) and the paginated ones
    (given the same page parameter) resolve or fetch alike. *)
Theorem queryFn_decided_by_key (callUrl : nat → JsValue → string)
    (props1 props2 : Props) (state1 state2 : State) :
  NoDup (queryParams props1).*1 →
  NoDup (queryParams props2).*1 →
  queryKeyEquals (baseQueryKey props1 state1) (baseQueryKey props2 state2) = true →
  url props1 = url props2
  ∧ requestPairs (queryParams props1) (inputValue state1) (searchable props1)
    ≡ₚ requestPairs (queryParams props2) (inputValue state2) (searchable props2)
  ∧ (queryParams props1 = queryParams props2 →
     (∀ cachedData,
        regularQueryFn props1 state1 cachedData
        = regularQueryFn props2 state2 cachedData)
     ∧ (∀ pageParam,
          infiniteQueryFn callUrl props1 state1 pageParam
          = infiniteQueryFn callUrl props2 state2 pageParam)).
Proof.
  intros Hnames1 Hnames2 Hkey.
  apply baseQueryKey_equals_parts in Hkey as (Hurl & Hparams & Hflag & Htext).
  split; [done|]. split.
  - unfold requestPairs. rewrite <- Hflag.
    apply Permutation_app.
    + destruct (searchable props1); [by rewrite Htext|done].
    + apply Permutation_map. by apply list_to_map_inj.
  - intros Hsame. unfold regularQueryFn, infiniteQueryFn.
    rewrite <- Hurl, <- Hsame, <- Hflag.
    destruct (searchable props1).
    + by rewrite Htext.
    + split.
      * intros cachedData. destruct (toBoolean cachedData); [done|].
        destruct (url props1); [|done].
        by rewrite (buildUrl_not_searchable _ _ (inputValue state1) (inputValue state2)).
      * intros pageParam.
        by rewrite (buildUrl_not_searchable _ _ (inputValue state1) (inputValue state2)).
Qed.

(** [{limit:10, sort:"name"}] and [{sort:"name", limit:10}]: one key, the
    same pairs in another order. *)
Lemma queryFn_decided_by_key_witness :
  url sortedParams = url unsortedParams
  ∧ requestPairs (queryParams sortedParams) "" (searchable sortedParams)
    ≡ₚ requestPairs (queryParams unsortedParams) "" (searchable unsortedParams)
  ∧ (queryParams sortedParams = queryParams unsortedParams →
     (∀ cachedData,
        regularQueryFn sortedParams initialState cachedData
        = regularQueryFn unsortedParams initialState cachedData)
     ∧ (∀ pageParam,
          infiniteQueryFn (λ _ _, "") sortedParams initialState pageParam
          = infiniteQueryFn (λ _ _, "") unsortedParams initialState pageParam)).
Proof.
  apply (queryFn_decided_by_key (λ _ _, "") sortedParams unsortedParams
           initialState initialState).
  - simpl. apply NoDup_cons_2; [|apply NoDup_singleton].
    by intros ?%list_elem_of_singleton.
  - simpl. apply NoDup_cons_2; [|apply NoDup_singleton].
    by intros ?%list_elem_of_singleton.
  - reflexivity.
Defined.

(** The order of the entries is the order of the pairs in the URL: the
    two configurations share a key and fetch different URLs. *)
Lemma entry_order_in_url :
  regularQueryFn sortedParams initialState VUndefined
  = FetchJson "https://example.org/users?limit=10&sort=name"
  ∧ regularQueryFn unsortedParams initialState VUndefined
    = FetchJson "https://example.org/users?sort=name&limit=10".
Proof. split; vm_compute; reflexivity. Qed.

(** X8. While the single-page query is enabled its query function never
    takes the branch that resolves with [null]: it resolves with the cache
    entry when that is truthy (and then does not fetch), and otherwise
    fetches the URL built from the string URL, the parameters and the
    input text. *)
Theorem regularQueryFn_enabled (props : Props) (state : State) (cachedData : JsValue) :
  regularEnabled props state = true →
  ∃ base,
    url props = UrlString base
    ∧ regularQueryFn props state cachedData
      = if toBoolean cachedData then Resolve cachedData
        else FetchJson (buildUrl base (queryParams props) (inputValue state)
                                 (searchable props)).
Proof.
  unfold regularEnabled, regularQueryFn. intros Henabled.
  apply andb_true_iff in Henabled as [_ Hstring].
  destruct (url props) as [base|ref]; [|done].
  exists base. split; [done|]. by destruct (toBoolean cachedData).
Qed.

(** The example configuration after focus, with an empty cache. *)
Lemma regularQueryFn_enabled_witness :
  ∃ base,
    url exampleProps = UrlString base
    ∧ regularQueryFn exampleProps typedState VUndefined
      = if toBoolean VUndefined then Resolve VUndefined
        else FetchJson (buildUrl base (queryParams exampleProps) (inputValue typedState)
                                 (searchable exampleProps)).
Proof. apply (regularQueryFn_enabled exampleProps typedState VUndefined). reflexivity. Defined.

(** X9. With a string URL the paginated query function ignores the page
    parameter: every page requests the same URL, the one the single-page
    query fetches on a cache miss. *)
Theorem infiniteQueryFn_string_url (callUrl : nat → JsValue → string)
    (props : Props) (state : State) (pageParam : JsValue) :
  isUrlString (url props) = true →
  infiniteQueryFn callUrl props state pageParam
  = regularQueryFn props state VUndefined
  ∧ ∀ pageParam',
      infiniteQueryFn callUrl props state pageParam'
      = infiniteQueryFn callUrl props state pageParam.
Proof.
  unfold infiniteQueryFn, regularQueryFn. intros Hstring.
  by destruct (url props).
Qed.

(** The paginated example configuration, asked for page 2. *)
Lemma infiniteQueryFn_string_url_witness :
  infiniteQueryFn pagedUrl paginatedProps typedState (VObj [("page", VNum 2)])
  = regularQueryFn paginatedProps typedState VUndefined
  ∧ ∀ pageParam',
      infiniteQueryFn pagedUrl paginatedProps typedState pageParam'
      = infiniteQueryFn pagedUrl paginatedProps typedState (VObj [("page", VNum 2)]).
Proof.
  apply (infiniteQueryFn_string_url pagedUrl paginatedProps typedState
           (VObj [("page", VNum 2)])).
  reflexivity.
Defined.

(** ** The state of a run *)

Section Runs.

Variable props : Props.

Lemma fold_applyEffect_inputValue (effects : list Effect) :
  ∀ state,
    inputValue (fold_left applyEffect effects state)
    = fold_left (λ text effect,
                   match effect with
                   | SetInputValue newValue => newValue
                   | _ => text
                   end) effects (inputValue state).
Proof.
  induction effects as [|effect effects IH]; intros state; simpl; [done|].
  rewrite IH. by destruct effect.
Qed.

Lemma step_inputValue (state : State) (occurrence : InfiniteQuery * Event) :
  inputValue (step props state occurrence)
  = match occurrence.2 with
    | InputChange newValue => newValue
    | _ => inputValue state
    end.
Proof.
  destruct occurrence as [infiniteQuery event]. unfold step. simpl.
  destruct event as [e| |newValue|option|listbox]; simpl; try done.
  - rewrite fold_applyEffect_inputValue. unfold handleFocus.
    rewrite fold_left_app. simpl. by destruct (onFocus props).
  - destruct (handleChange_effects props option)
      as [-> | (cb & reported & -> & _ & _)]; done.
  - unfold handleScroll. by destruct (_ && _).
Qed.

Lemma run_inputValue (events : list (InfiniteQuery * Event)) :
  ∀ state, inputValue (run props state events) = lastTyped (inputValue state) events.
Proof.
  unfold run, lastTyped.
  induction events as [|occurrence events IH]; intros state; simpl; [done|].
  by rewrite IH, step_inputValue.
Qed.

Lemma State_eta (state : State) :
  state = {| inputValue := inputValue state; focusedInput := focusedInput state |}.
Proof. by destruct state. Qed.

(** X10. The state after a run: the input text is the text of the last
    input change (the initial text when there is none), and the focus flag
    is set when it was set or a focus event occurred. Selections, scrolls
    and blurs change nothing. *)
Theorem run_state (state : State) (events : list (InfiniteQuery * Event)) :
  run props state events
  = {| inputValue := lastTyped (inputValue state) events;
       focusedInput :=
         focusedInput state || existsb (λ occurrence, isFocus occurrence.2) events |}.
Proof.
  rewrite (State_eta (run props state events)).
  by rewrite run_inputValue, run_focusedInput.
Qed.

Lemma lastTyped_unchanged (initial : string) (events : list (InfiniteQuery * Event)) :
  existsb (λ occurrence, isInputChange occurrence.2) events = false →
  lastTyped initial events = initial.
Proof.
  unfold lastTyped. revert initial.
  induction events as [|[q event] events IH]; intros initial; simpl; [done|].
  intros [Hevent Hrest]%orb_false_iff. rewrite IH by done.
  by destruct event.
Qed.

(** X11. The key is stable across renders: when searching is off, or
    when no input change occurs, the key after a run is the key before it,
    whatever focus, selection, scroll and blur events occurred. *)
Theorem baseQueryKey_stable (state : State) (events : list (InfiniteQuery * Event)) :
  searchable props = false
  ∨ existsb (λ occurrence, isInputChange occurrence.2) events = false →
  baseQueryKey props (run props state events) = baseQueryKey props state.
Proof.
  intros Hstable. unfold baseQueryKey.
  destruct (searchable props); [|done].
  destruct Hstable as [?|Hquiet]; [done|].
  by rewrite run_inputValue, lastTyped_unchanged.
Qed.

Lemma filter_handleChange (option : JsValue) :
  List.filter isFetchNextPage
    (match handleChange props option with Ok effects => effects | Throw _ => [] end)
  = [].
Proof.
  destruct (handleChange_effects props option)
    as [-> | (cb & reported & -> & _ & _)]; done.
Qed.

Lemma filter_effectsOf (occurrence : InfiniteQuery * Event) :
  List.filter isFetchNextPage (effectsOf props occurrence)
  = if infinite props && scrollFetches occurrence then [FetchNextPage] else [].
Proof.
  destruct occurrence as [infiniteQuery event]. unfold effectsOf, scrollFetches.
  destruct event as [e| |newValue|option|listbox]; cbn [dispatch fst snd].
  - rewrite andb_false_r. unfold handleFocus. by destruct (onFocus props).
  - by rewrite andb_false_r.
  - by rewrite andb_false_r.
  - rewrite andb_false_r. apply filter_handleChange.
  - unfold handleScroll. rewrite <- !andb_assoc.
    by destruct (infinite props && _).
Qed.

(** X12. Over a whole run, [fetchNextPage] is called once for every
    scroll event that is near the end while a next page exists and no page
    fetch is in flight, in paginated mode, and never in single-page mode;
    no other event calls it. *)
Theorem trace_fetchNextPage (events : list (InfiniteQuery * Event)) :
  length (List.filter isFetchNextPage (trace props events))
  = if infinite props then length (List.filter scrollFetches events) else 0%nat.
Proof.
  unfold trace.
  induction events as [|occurrence events IH]; simpl.
  - by destruct (infinite props).
  - rewrite List.filter_app, length_app, IH, filter_effectsOf.
    destruct (infinite props); simpl; [|done].
    by destruct (scrollFetches occurrence).
Qed.

End Runs.

(** Searching is off in the example configuration: focus, typing, a
    scroll, a selection and a blur leave the key as it was. *)
Lemma baseQueryKey_stable_witness :
  baseQueryKey exampleProps (run exampleProps initialState focusTypeScroll)
  = baseQueryKey exampleProps initialState.
Proof.
  apply (baseQueryKey_stable exampleProps initialState focusTypeScroll).
  by left.
Defined.

(** ** Paginated options *)

Section PaginatedOptions.

Variable props : Props.

Lemma arrayFlatMap_pages (pages : list JsValue) :
  arrayFlatMap (λ page,
    match truthyPath (optionsPath props) with
    | Some pathOrFn => getValueFromPath page pathOrFn
    | None => Ok page
    end) pages
  = Ok (flat_map (pageOptions props) pages).
Proof.
  induction pages as [|page pages IH]; simpl; [done|].
  rewrite IH. unfold pageOptions.
  destruct (truthyPath (optionsPath props)) as [pathOrFn|]; simpl.
  - rewrite getValueFromPath_extracted. simpl.
    by destruct (extracted page pathOrFn).
  - by destruct page.
Qed.

(** X13. In paginated mode, once pages are there, the options are the
    pages' options one page after the other, in page order (a page that is
    not an array counts as one option), and the single-page data plays no
    part; pages fetched later put their options behind those already
    there. *)
Theorem options_paginated (regularQuery : RegularQuery) (infiniteQuery : InfiniteQuery)
    (pages : list JsValue) :
  infinite props = true →
  infiniteData infiniteQuery = Some pages →
  options props regularQuery infiniteQuery
  = Ok (VArr (flat_map (pageOptions props) pages))
  ∧ ∀ regularQuery' infiniteQuery' later,
      infiniteData infiniteQuery' = Some (pages ++ later)%list →
      options props regularQuery' infiniteQuery'
      = Ok (VArr (flat_map (pageOptions props) pages
                  ++ flat_map (pageOptions props) later)).
Proof.
  intros Hmode Hpages. unfold options. rewrite Hmode. split.
  - by rewrite Hpages, arrayFlatMap_pages.
  - intros regularQuery' infiniteQuery' later ->.
    by rewrite arrayFlatMap_pages, flat_map_app.
Qed.

End PaginatedOptions.

(** Two pages of one and two options, then a third page. *)
Lemma options_paginated_witness :
  options paginatedProps {| regularData := VUndefined |} pagingQuery
  = Ok (VArr (flat_map (pageOptions paginatedProps) [VArr [optionA]]))
  ∧ ∀ regularQuery' infiniteQuery' later,
      infiniteData infiniteQuery' = Some ([VArr [optionA]] ++ later)%list →
      options paginatedProps regularQuery' infiniteQuery'
      = Ok (VArr (flat_map (pageOptions paginatedProps) [VArr [optionA]]
                  ++ flat_map (pageOptions paginatedProps) later)).
Proof.
  apply (options_paginated paginatedProps {| regularData := VUndefined |}
           pagingQuery [VArr [optionA]]); reflexivity.
Defined.

(** ** The selection resolver, continued *)

Section SelectionMore.

Variable valueField : PathOrFunction.

(** The comparison both resolvers make for a scalar: the stringified value
    field of the option against the stringified scalar. *)
Lemma matchesScalar_eqb (val option : JsValue) :
  matchesScalar valueField val option
  = Ok (String.eqb (ToString (extracted option valueField)) (ToString val)).
Proof. unfold matchesScalar. by rewrite getValueFromPath_extracted. Qed.

Lemma sameExtracted_eqb (option v : JsValue) :
  sameExtracted valueField option v
  = Ok (strictEquals (extracted option valueField) (extracted v valueField)).
Proof. unfold sameExtracted. by rewrite !getValueFromPath_extracted. Qed.

Lemma arrayFind_pure (pred : JsValue → outcome bool) (keep : JsValue → bool)
    (xs : list JsValue) :
  (∀ x, pred x = Ok (keep x)) →
  ∃ found,
    arrayFind pred xs = Ok found
    ∧ (found = VUndefined ∨ (found ∈ xs ∧ keep found = true)).
Proof.
  intros Hpred. induction xs as [|x xs IH]; simpl.
  - exists VUndefined. auto.
  - rewrite Hpred. simpl. destruct (keep x) eqn:Hx.
    + exists x. split; [done|]. right. split; [by left|done].
    + destruct IH as (found & -> & IH). exists found. split; [done|].
      destruct IH as [?|[? ?]]; [by left|]. right. split; [by right|done].
Qed.

Lemma arrayFilter_pure (pred : JsValue → outcome bool) (keep : JsValue → bool)
    (xs : list JsValue) :
  (∀ x, pred x = Ok (keep x)) →
  arrayFilter pred xs = Ok (List.filter keep xs).
Proof.
  intros Hpred. induction xs as [|x xs IH]; simpl; [done|].
  rewrite Hpred, IH. simpl. by destruct (keep x).
Qed.

Lemma arraySome_pure (pred : JsValue → outcome bool) (keep : JsValue → bool)
    (xs : list JsValue) :
  (∀ x, pred x = Ok (keep x)) →
  arraySome pred xs = Ok (existsb keep xs).
Proof.
  intros Hpred. induction xs as [|x xs IH]; simpl; [done|].
  rewrite Hpred. simpl. by destruct (keep x).
Qed.

Lemma List_filter_sublist (keep : JsValue → bool) (xs : list JsValue) :
  List.filter keep xs `sublist_of` xs.
Proof.
  induction xs as [|x xs IH]; simpl; [done|].
  destruct (keep x); [by apply sublist_skip|by apply sublist_cons].
Qed.

Lemma findOptionByValue_no_lookup (options val : JsValue) :
  needsLookup val = false →
  findOptionByValue options valueField val
  = Ok (if toBoolean val then val else VNull).
Proof.
  unfold needsLookup, findOptionByValue.
  destruct (toBoolean val); [|done]. simpl.
  destruct val as [| | | | |ids|]; try done.
  by destruct (typeof (arrayFirst ids)).
Qed.

Lemma findOptionByValue_lookup_throws (options val : JsValue) :
  isArrayValue options = false → needsLookup val = true →
  ∃ e, findOptionByValue options valueField val = Throw e.
Proof.
  intros Hoptions Hlookup.
  unfold needsLookup in Hlookup. apply andb_true_iff in Hlookup as [Htruthy Hkind].
  unfold findOptionByValue. rewrite Htruthy. simpl.
  destruct val as [| | |n|s|ids|]; try done.
  - destruct options; try done; simpl; eauto.
  - destruct options; try done; simpl; eauto.
  - destruct (typeof (arrayFirst ids)); try done;
      destruct options; try done; simpl; eauto.
Qed.


(** X15. A value that is already an item, or a list of items, or the
    empty list, is handed back as it is, without a look at the options. *)
Theorem findOptionByValue_hydrated (options val : JsValue) :
  needsLookup val = false → toBoolean val = true →
  findOptionByValue options valueField val = Ok val.
Proof.
  intros Hlookup Htruthy.
  by rewrite findOptionByValue_no_lookup, Htruthy.
Qed.

(** X16. A list value always resolves to a list, and that list is the
    value itself or options picked in the order of the options: nothing is
    reordered, repeated or made up. *)
Theorem findOptionByValue_list (options ids : list JsValue) :
  ∃ kept,
    findOptionByValue (VArr options) valueField (VArr ids) = Ok (VArr kept)
    ∧ (kept = ids ∨ kept `sublist_of` options).
Proof.
  destruct (typeof (arrayFirst ids)) eqn:Hfirst.
  1-3: exists ids; split; [|by left];
       rewrite findOptionByValue_no_lookup; [done|];
       unfold needsLookup; by rewrite Hfirst.
  - eexists. split; [by apply findOptionByValue_number_list|].
    right. apply List_filter_sublist.
  - eexists. split; [by apply findOptionByValue_string_list|].
    right. apply List_filter_sublist.
Qed.

Lemma isOptionEqualToValue_scalar (val option : JsValue) :
  isScalar val = true → toBoolean val = true →
  isOptionEqualToValue valueField val option
  = Ok (String.eqb (ToString (extracted option valueField)) (ToString val)).
Proof.
  intros Hscalar Htruthy. unfold isOptionEqualToValue. rewrite Htruthy. simpl.
  destruct val; try done; by rewrite matchesScalar_eqb.
Qed.

Lemma isOptionEqualToValue_list (members : list JsValue) (option : JsValue) :
  isOptionEqualToValue valueField (VArr members) option
  = Ok (existsb (equalsMember valueField option) members).
Proof.
  unfold isOptionEqualToValue. simpl. apply arraySome_pure.
  intros v. unfold equalsMember.
  destruct v; by rewrite ?matchesScalar_eqb, ?sameExtracted_eqb.
Qed.

(** X17. For a falsy value ([undefined], [null], [false], [0], the empty
    string) nothing is selected and no option is equal: the resolver
    answers [null] whatever the options are, loaded or not, and
    [isOptionEqualToValue] answers "not equal" for every option, without a
    look at the option. *)
Theorem isOptionEqualToValue_falsy (options value option : JsValue) :
  toBoolean value = false →
  findOptionByValue options valueField value = Ok VNull
  ∧ isOptionEqualToValue valueField value option = Ok false.
Proof.
  intros Hfalsy. unfold findOptionByValue, isOptionEqualToValue.
  by rewrite Hfalsy.
Qed.

(** X18. A scalar value resolves to [null] or to one of the options, and
    that option is one [isOptionEqualToValue] reports equal to the value:
    the list renderer highlights what the resolver selected. *)
Theorem findOptionByValue_scalar_equal (options : list JsValue) (val : JsValue) :
  isScalar val = true →
  ∃ selected,
    findOptionByValue (VArr options) valueField val = Ok selected
    ∧ (selected = VNull
       ∨ (selected ∈ options
          ∧ isOptionEqualToValue valueField val selected = Ok true)).
Proof.
  intros Hscalar. destruct (toBoolean val) eqn:Htruthy.
  - rewrite findOptionByValue_scalar by done.
    destruct (arrayFind_pure _ _ options (matchesScalar_eqb val))
      as (found & -> & Hfound). simpl.
    exists (nullishCoalesce found VNull). split; [done|].
    destruct Hfound as [->|[Hin Hmatch]]; [by left|].
    simpl in Hmatch.
    destruct found; try (by left); right;
      cbn [nullishCoalesce isNullish]; (split; [exact Hin|]);
      rewrite isOptionEqualToValue_scalar by done; by rewrite Hmatch.
  - exists VNull. split; [by apply findOptionByValue_falsy|by left].
Qed.

End SelectionMore.


(** The value [0] against the option with the id [0]. *)
Lemma isOptionEqualToValue_falsy_witness :
  findOptionByValue (VArr [optionZero]) (Path "id") (VNum 0) = Ok VNull
  ∧ isOptionEqualToValue (Path "id") (VNum 0) optionZero = Ok false.
Proof.
  apply (isOptionEqualToValue_falsy (Path "id") (VArr [optionZero]) (VNum 0) optionZero).
  reflexivity.
Defined.

(** [{company:{name:"Acme"}}] is an item: it comes back as it is, also
    when the options are not loaded. *)
Lemma findOptionByValue_hydrated_witness :
  findOptionByValue VUndefined (Path "id") acmeItem = Ok acmeItem.
Proof. apply findOptionByValue_hydrated; reflexivity. Defined.

(** The value ["2"] against options with the ids [1] and [2]. *)
Lemma findOptionByValue_scalar_equal_witness :
  ∃ selected,
    findOptionByValue (VArr [optionA; optionB]) (Path "id") (VStr "2") = Ok selected
    ∧ (selected = VNull
       ∨ (selected ∈ [optionA; optionB]
          ∧ isOptionEqualToValue (Path "id") (VStr "2") selected = Ok true)).
Proof.
  apply (findOptionByValue_scalar_equal (Path "id") [optionA; optionB] (VStr "2")).
  reflexivity.
Defined.

Section SelectionLists.

Variable valueField : PathOrFunction.

Lemma existsb_idText (option : JsValue) (ids : list JsValue) :
  existsb (λ v, String.eqb (idText valueField option) (ToString v)) ids = true
  ↔ memberOfIds valueField ids option.
Proof.
  unfold memberOfIds, idText. induction ids as [|id ids IH]; simpl.
  - split; [done|by intros ?%elem_of_nil].
  - rewrite orb_true_iff, elem_of_cons, IH, String.eqb_eq. done.
Qed.

Lemma equalsMember_scalar (option v : JsValue) :
  isScalar v = true →
  equalsMember valueField option v
  = String.eqb (idText valueField option) (ToString v).
Proof. by destruct v. Qed.

Lemma existsb_ext_in (f g : JsValue → bool) (xs : list JsValue) :
  (∀ x, x ∈ xs → f x = g x) → existsb f xs = existsb g xs.
Proof.
  induction xs as [|x xs IH]; intros Hext; simpl; [done|].
  rewrite (Hext x) by left. f_equal. apply IH. intros y Hy. apply Hext. by right.
Qed.

(** X19. Against a list of strings and numbers, [isOptionEqualToValue]
    reports an option equal exactly when its stringified value field is
    among the stringified members, numbers and strings alike. *)
Theorem isOptionEqualToValue_scalar_list (ids : list JsValue) (option : JsValue) :
  Forall (λ id, isScalar id = true) ids →
  isOptionEqualToValue valueField (VArr ids) option
  = Ok (bool_decide (memberOfIds valueField ids option)).
Proof.
  intros Hids. rewrite isOptionEqualToValue_list. f_equal.
  rewrite (existsb_ext_in _ (λ v, String.eqb (idText valueField option) (ToString v))).
  - destruct (existsb _ ids) eqn:Hex.
    + symmetry. by apply bool_decide_eq_true, existsb_idText.
    + symmetry. apply bool_decide_eq_false. intros Hmember.
      apply existsb_idText in Hmember. congruence.
  - intros v Hv. apply equalsMember_scalar.
    by apply (proj1 (Forall_forall _ _) Hids).
Qed.

(** X20. A list of string ids, or a list of number ids against options
    whose value fields are numbers, resolves to the options whose
    stringified value field is among the stringified ids, in the order of
    the options. *)
Theorem findOptionByValue_ids_members (options ids : list JsValue) :
  ids ≠ [] →
  Forall (λ id, typeof id = TString) ids
  ∨ (Forall (λ id, typeof id = TNumber) ids
     ∧ Forall (λ option, typeof (extracted option valueField) = TNumber) options) →
  findOptionByValue (VArr options) valueField (VArr ids)
  = Ok (VArr (filter (memberOfIds valueField ids) options)).
Proof.
  intros Hne [Hstrings|[Hnumbers Hfields]].
  - by apply findOptionByValue_string_ids.
  - by apply findOptionByValue_number_ids.
Qed.

Lemma filter_ext_in (P Q : JsValue → Prop) `{!∀ x, Decision (P x), !∀ x, Decision (Q x)}
    (xs : list JsValue) :
  (∀ x, x ∈ xs → P x ↔ Q x) → filter P xs = filter Q xs.
Proof.
  induction xs as [|x xs IH]; intros Hext; [done|].
  rewrite !filter_cons, IH by (intros y Hy; apply Hext; by right).
  apply decide_ext, Hext. by left.
Qed.

(** Picking from a list without repeated ids: the options whose id is
    among the ids of a sublist are that sublist. *)
Lemma filter_ids_sublist (selected options : list JsValue) :
  selected `sublist_of` options →
  NoDup (idText valueField <$> options) →
  filter (λ option, idText valueField option ∈ idText valueField <$> selected) options
  = selected.
Proof.
  induction 1 as [|x selected options Hsub IH|x selected options Hsub IH];
    intros Hdistinct; [done|..].
  - rewrite fmap_cons in Hdistinct. apply NoDup_cons in Hdistinct as [Hfresh Hrest].
    rewrite filter_cons_True by (rewrite fmap_cons; by left). f_equal.
    trans (filter (λ option, idText valueField option ∈ idText valueField <$> selected)
                  options); [|by apply IH].
    apply filter_ext_in. intros y Hy.
    rewrite fmap_cons, elem_of_cons. split; [|by right].
    intros [Hsame|?]; [|done]. exfalso. apply Hfresh. rewrite <- Hsame.
    by apply list_elem_of_fmap_2.
  - rewrite fmap_cons in Hdistinct. apply NoDup_cons in Hdistinct as [Hfresh Hrest].
    rewrite filter_cons_False; [by apply IH|].
    intros Hin. apply Hfresh.
    apply list_elem_of_fmap in Hin as (y & -> & Hy).
    apply list_elem_of_fmap_2. by apply (sublist_subseteq _ _ Hsub).
Qed.

Lemma pretty_N_go_length (x : N) :
  ∀ s, (String.length s ≤ String.length (pretty_N_go x s))%nat.
Proof.
  induction (N.lt_wf_0 x) as [x _ IH]; intros s.
  destruct (decide (x = 0)%N) as [->|Hpos].
  - by rewrite pretty_N_go_0.
  - rewrite pretty_N_go_step by lia.
    etrans; [|apply IH; apply N.div_lt; lia]. simpl. lia.
Qed.

Lemma pretty_Z_nonempty (n : Z) : pretty n ≠ "".
Proof.
  assert (Hpos : ∀ p : positive, pretty p ≠ "").
  { intros p. unfold pretty, pretty_positive, pretty, pretty_N.
    rewrite decide_False by done. rewrite pretty_N_go_step by lia.
    intros Hempty. apply (f_equal String.length) in Hempty.
    pose proof (pretty_N_go_length (N.pos p `div` 10)
                  (String (pretty_N_char (N.pos p `mod` 10)) "")) as Hlen.
    rewrite Hempty in Hlen. simpl in Hlen. lia. }
  destruct n as [|p|p]; unfold pretty, pretty_Z; [done|apply Hpos|].
  by destruct (pretty p) eqn:Hp.
Qed.

(** X21. A safe integer other than zero and its decimal string are the
    same value to both resolvers: they select the same option and report
    the same options equal. *)
Theorem number_as_string (n : Z) (options option : JsValue) :
  isSafeInteger n →
  n ≠ 0 →
  findOptionByValue options valueField (VNum n)
  = findOptionByValue options valueField (VStr (pretty n))
  ∧ isOptionEqualToValue valueField (VNum n) option
    = isOptionEqualToValue valueField (VStr (pretty n)) option.
Proof.
  intros _ Hn.
  assert (Hnum : toBoolean (VNum n) = true).
  { simpl. by destruct (Z.eqb_spec n 0). }
  assert (Hstr : toBoolean (VStr (pretty n)) = true).
  { simpl. destruct (String.eqb_spec (pretty n) ""); [|done].
    by destruct (pretty_Z_nonempty n). }
  split.
  - unfold findOptionByValue. by rewrite Hnum, Hstr.
  - by rewrite !isOptionEqualToValue_scalar.
Qed.

End SelectionLists.

(** The option with id [1] against the mixed list [["2"; 1]]. *)
Lemma isOptionEqualToValue_scalar_list_witness :
  isOptionEqualToValue (Path "id") (VArr [VStr "2"; VNum 1]) optionA
  = Ok (bool_decide (memberOfIds (Path "id") [VStr "2"; VNum 1] optionA)).
Proof.
  apply (isOptionEqualToValue_scalar_list (Path "id") [VStr "2"; VNum 1] optionA).
  by repeat constructor.
Defined.

(** The ids [["y"; "x"]] against options with the ids ["x"], ["y"] and
    ["z"]. *)
Lemma findOptionByValue_ids_members_witness :
  findOptionByValue (VArr [optionX; optionY; optionZ]) (Path "id")
    (VArr [VStr "y"; VStr "x"])
  = Ok (VArr (filter (memberOfIds (Path "id") [VStr "y"; VStr "x"])
                [optionX; optionY; optionZ])).
Proof.
  apply (findOptionByValue_ids_members (Path "id")).
  - discriminate.
  - left. by repeat constructor.
Defined.

(** The value [2] and the value ["2"]. *)
Lemma number_as_string_witness :
  findOptionByValue (VArr [optionA; optionB]) (Path "id") (VNum 2)
  = findOptionByValue (VArr [optionA; optionB]) (Path "id") (VStr (pretty 2))
  ∧ isOptionEqualToValue (Path "id") (VNum 2) optionB
    = isOptionEqualToValue (Path "id") (VStr (pretty 2)) optionB.
Proof.
  apply (number_as_string (Path "id") 2).
  - split; reflexivity.
  - discriminate.
Defined.

(** ** Selecting and resolving back *)

Section RoundTrip.

Variable props : Props.

(** X22. Select an option, hand the value [onChange] reported back as
    [value]: the resolver finds the selected option again, provided the
    reported value is a truthy string or number and no earlier option has
    the same stringified id. *)
Theorem select_then_resolve (callback : Callback) (pre post : list JsValue)
    (selected : JsValue) :
  onChange props = Some callback →
  isArrayValue selected = false →
  toBoolean selected = true →
  isScalar (extracted selected (valueField props)) = true →
  toBoolean (extracted selected (valueField props)) = true →
  (∀ x, x ∈ pre → idText (valueField props) x ≠ idText (valueField props) selected) →
  handleChange props selected
  = Ok [Invoke callback [extracted selected (valueField props); selected]]
  ∧ findOptionByValue (VArr (pre ++ selected :: post)) (valueField props)
      (extracted selected (valueField props))
    = Ok selected.
Proof.
  intros Hcb Hsingle Htruthy Hscalar Hreported Hfirst. split.
  - unfold handleChange. rewrite Htruthy, Hcb.
    destruct selected; try done; by rewrite getValueFromPath_extracted.
  - rewrite findOptionByValue_scalar by done.
    rewrite arrayFind_first.
    + by destruct selected.
    + intros x Hx. apply matchesScalar_false. unfold matchesValue.
      by apply Hfirst.
    + by apply matchesScalar_true.
Qed.

Lemma memberOfIds_selected (selected : list JsValue) (option : JsValue) :
  memberOfIds (valueField props)
    (List.map (λ item, extracted item (valueField props)) selected) option
  ↔ idText (valueField props) option ∈ idText (valueField props) <$> selected.
Proof.
  unfold memberOfIds. rewrite List.map_map.
  rewrite list_elem_of_In, in_map_iff, list_elem_of_fmap.
  split; intros (y & Hy & Hin); exists y; by rewrite ?list_elem_of_In in *.
Qed.


(** X25. Typing changes the key exactly when it changes the URL that is
    fetched: for one configuration, two renders have the same key if and
    only if [buildUrl] gives them the same URL. *)
Theorem key_follows_url (base : string) (state1 state2 : State) :
  baseQueryKey props state1 = baseQueryKey props state2
  ↔ buildUrl base (queryParams props) (inputValue state1) (searchable props)
    = buildUrl base (queryParams props) (inputValue state2) (searchable props).
Proof.
  unfold baseQueryKey. destruct (searchable props).
  - split.
    + intros Hkey. cbn [app] in Hkey. injection Hkey as Hinput. by rewrite Hinput.
    + intros Hurl. apply buildUrl_search_text in Hurl. by rewrite Hurl.
  - split; [|done]. intros _. apply buildUrl_not_searchable.
Qed.

End RoundTrip.

(** Selecting [{id:2,name:"b"}] from three options. *)
Lemma select_then_resolve_witness :
  handleChange exampleProps optionB
  = Ok [Invoke (CallbackRef 0) [extracted optionB (valueField exampleProps); optionB]]
  ∧ findOptionByValue (VArr ([optionA] ++ optionB :: [optionC]))
      (valueField exampleProps) (extracted optionB (valueField exampleProps))
    = Ok optionB.
Proof.
  apply (select_then_resolve exampleProps (CallbackRef 0) [optionA] [optionC] optionB);
    try reflexivity.
  intros x Hx. apply list_elem_of_singleton in Hx. subst x.
  vm_compute. discriminate.
Defined.


